(** * python-idb, [idb/analysis.py]: a shallow embedding and its properties

    The decoding layer of the IDA database reader is embedded function by
    function.  Python integers are unbounded, so they are [Z]; [bytes] are
    lists of [Byte.byte]; an exception is a value of [exn] carried by the
    error monad [result]; a generator is a step function on an explicit
    state, driven by [drive]. *)

From Stdlib Require Import ZArith List Lia Bool Ascii.
From Stdlib.Strings Require Import Byte.
From Equations Require Import Equations.
From Stdlib Require String.
Import String.StringSyntax.
Import ListNotations.
Open Scope Z_scope.
Delimit Scope string_scope with string.

Set Implicit Arguments.

(** ** The fragment of Python the module relies on *)

Module Py.

(** The exception classes that [analysis.py] can raise or catch. *)
Inductive exn : Type :=
| IndexError
| KeyError
| ValueError
| TypeError
| RuntimeError
| UnboundLocalError.

(** A call either returns a value or raises. *)
Inductive result (A : Type) : Type :=
| Ok (a : A)
| Raise (e : exn).
Arguments Raise {A} e.

Definition bind {A B} (m : result A) (k : A -> result B) : result B :=
  match m with
  | Ok a => k a
  | Raise e => Raise e
  end.

(** [bytes] objects; indexing one gives an [int] in [0, 256). *)
Definition bytes : Type := list byte.

Definition byte_val (b : byte) : Z := Z.of_N (Byte.to_N b).

(** [len(buf)] *)
Definition len {A} (l : list A) : Z := Z.of_nat (List.length l).

(** A slice bound is clamped the way CPython does it: a negative bound
    counts from the end, and the result is kept inside [0, len]. *)
Definition clamp (n k : Z) : Z :=
  if k <? 0 then Z.max 0 (k + n) else Z.min k n.

(** [l[lo:hi]]; slicing never raises. *)
Definition slice {A} (l : list A) (lo hi : Z) : list A :=
  let lo' := clamp (len l) lo in
  let hi' := clamp (len l) hi in
  firstn (Z.to_nat (hi' - lo')) (skipn (Z.to_nat lo') l).

(** [l[lo:]] *)
Definition slice_from {A} (l : list A) (lo : Z) : list A :=
  skipn (Z.to_nat (clamp (len l) lo)) l.

(** [l[i]] for a non-negative or negative index; out of range raises
    [IndexError]. *)
Definition index {A} (l : list A) (i : Z) : result A :=
  let j := if i <? 0 then i + len l else i in
  if j <? 0 then Raise IndexError
  else match nth_error l (Z.to_nat j) with
       | Some a => Ok a
       | None => Raise IndexError
       end.

(** [buf[i]] on a [bytes] object. *)
Definition byte_at (buf : bytes) (i : Z) : result Z :=
  bind (index buf i) (fun b => Ok (byte_val b)).

(** Truth value of an [int]. *)
Definition truthy (z : Z) : bool := negb (z =? 0).

(** [sys.maxsize], on a 64-bit build of CPython. *)
Definition maxsize : Z := 2 ^ 63 - 1.

End Py.
Import Py.

Declare Scope py_scope.
Delimit Scope py_scope with py.
Notation "x <- m ;; k" := (bind m (fun x => k))
  (at level 61, m at next level, right associativity) : py_scope.
Open Scope py_scope.

(** ** Packed integer codec *)

(** [is_flag_set(flags, flag)] *)
Definition is_flag_set (flags flag : Z) : bool := Z.land flags flag =? flag.

(** [unpack_dd(buf, offset=0)]: up to 32 bits, with the number of bytes
    consumed. *)
Definition unpack_dd (buf : bytes) (offset : Z) : result (Z * Z) :=
  let buf := if negb (offset =? 0) then slice_from buf offset else buf in
  header <- byte_at buf 0 ;;
  if Z.land header 0x80 =? 0 then Ok (header, 1)
  else if negb (Z.land header 0xC0 =? 0xC0) then
    b1 <- byte_at buf 1 ;;
    Ok (Z.shiftl (Z.land header 0x7F) 8 + b1, 2)
  else if Z.land header 0xE0 =? 0xE0 then
    b1 <- byte_at buf 1 ;;
    b2 <- byte_at buf 2 ;;
    let hi := Z.shiftl b1 8 + b2 in
    b3 <- byte_at buf 3 ;;
    b4 <- byte_at buf 4 ;;
    let low := Z.shiftl b3 8 + b4 in
    Ok (Z.shiftl hi 16 + low, 5)
  else
    b1 <- byte_at buf 1 ;;
    let hi := Z.shiftl (Z.land header 0x3F) 8 + b1 in
    b2 <- byte_at buf 2 ;;
    b3 <- byte_at buf 3 ;;
    let low := Z.shiftl b2 8 + b3 in
    Ok (Z.shiftl hi 16 + low, 4).

(** [unpack_dw(buf, offset=0)] *)
Definition unpack_dw (buf : bytes) (offset : Z) : result (Z * Z) :=
  let buf := if negb (offset =? 0) then slice_from buf offset else buf in
  header <- byte_at buf 0 ;;
  if Z.land header 0x80 =? 0 then Ok (header, 1)
  else if negb (Z.land header 0xC0 =? 0xC0) then
    b1 <- byte_at buf 1 ;;
    Ok (Z.land (Z.shiftl header 8 + b1) 0x7FFF, 2)
  else
    b1 <- byte_at buf 1 ;;
    b2 <- byte_at buf 2 ;;
    Ok (Z.shiftl b1 8 + b2, 3).

(** [unpack_dq] applies [<<] and [+] to what [unpack_dd] returned, which
    is a tuple: the objects involved are kept with their run-time type. *)
Inductive pyobj : Type :=
| PyInt (z : Z)
| PyTuple (items : list Z).

(** [a << b] *)
Definition lshift (a b : pyobj) : result pyobj :=
  match a, b with
  | PyInt x, PyInt y =>
      if y <? 0 then Raise ValueError else Ok (PyInt (Z.shiftl x y))
  | _, _ => Raise TypeError
  end.

(** [a + b] *)
Definition add (a b : pyobj) : result pyobj :=
  match a, b with
  | PyInt x, PyInt y => Ok (PyInt (x + y))
  | PyTuple x, PyTuple y => Ok (PyTuple (x ++ y))
  | _, _ => Raise TypeError
  end.

(** The pair [(value, size)] as the tuple object it is. *)
Definition tuple2 (p : Z * Z) : pyobj := PyTuple [fst p; snd p].

(** [unpack_dq(buf, offset=0)] *)
Definition unpack_dq (buf : bytes) (offset : Z) : result pyobj :=
  let buf := if negb (offset =? 0) then slice_from buf offset else buf in
  dw1 <- unpack_dd buf 0 ;;
  dw2 <- unpack_dd buf 0x4 ;;
  hi <- lshift (tuple2 dw1) (PyInt 32) ;;
  add hi (tuple2 dw2).

(** ** Generators

    A generator function is a step function on the state of its frame:
    resuming it either yields a value and a new state, or ends the
    generator, normally ([Halt None]) or with an exception. *)

Inductive step (S A : Type) : Type :=
| Yield (v : A) (s : S)
| Halt (e : option exn).
Arguments Halt {S A} e.

(** How far a consumer got after resuming a generator [fuel] times. *)
Inductive outcome : Type :=
| Finished
| Raised (e : exn)
| Running.

Definition ending (e : option exn) : outcome :=
  match e with
  | None => Finished
  | Some x => Raised x
  end.

(** [drive next fuel s]: the values obtained by resuming at most [fuel]
    times, and whether the generator has ended by then. *)
Fixpoint drive {S A} (next : S -> step S A) (fuel : nat) (s : S)
  : list A * outcome :=
  match fuel with
  | O => ([], Running)
  | Datatypes.S f =>
      match next s with
      | Halt e => ([], ending e)
      | Yield v s' => let '(vs, o) := drive next f s' in (v :: vs, o)
      end
  end.

(** Big-step reading of the same: from [s] the generator yields exactly
    [vs] and then ends with [e]. *)
Inductive produces {S A} (next : S -> step S A) : S -> list A -> option exn -> Prop :=
| produces_halt s e :
    next s = Halt e -> produces next s [] e
| produces_yield s v s' vs e :
    next s = Yield v s' -> produces next s' vs e -> produces next s (v :: vs) e.

(** A generator that ends on its own is known by what it still has to
    produce: the values, then [StopIteration] ([None]) or an exception.
    Once it has ended it stays exhausted. *)
Definition generator (A : Type) : Type := (list A * option exn)%type.

Definition exhausted {A} : generator A := ([], None).

(** [next(g)] *)
Definition gen_next {A} (g : generator A) : step (generator A) A :=
  match g with
  | (x :: xs, e) => Yield x (xs, e)
  | ([], e) => Halt e
  end.

(** [list(g)] *)
Definition list_of {A} (g : generator A) : result (list A) :=
  match snd g with
  | None => Ok (fst g)
  | Some e => Raise e
  end.

(** Keeps the equation when matching on a computed value. *)
Definition inspect {A} (a : A) : {b | a = b} := exist _ a eq_refl.

(** [unpack_dds(buf)]: the packed values of a buffer, one after the other.
    The loop is [while offset < len(buf)]; every decoded value takes at
    least one byte, which is what makes it end. *)
Equations? unpack_dds_from (buf : bytes) (offset : Z) : generator Z
  by wf (Z.to_nat (len buf - offset)) lt :=
  unpack_dds_from buf offset with inspect (offset <? len buf) := {
    | exist _ false Hge => ([], None)
    | exist _ true Hlt with inspect (unpack_dd buf offset) := {
        | exist _ (Raise e) Hdd => ([], Some e)
        | exist _ (Ok (val, size)) Hdd =>
            let rest := unpack_dds_from buf (offset + size) in
            (val :: fst rest, snd rest) } }.
Proof.
  assert (Hpos : 0 < size).
  { unfold unpack_dd, bind in Hdd.
    repeat match type of Hdd with
           | match ?x with _ => _ end = _ => destruct x; try discriminate
           | (if ?c then _ else _) = _ => destruct c
           end;
    inversion Hdd; lia. }
  apply Z.ltb_lt in Hlt. lia.
Qed.

Definition unpack_dds (buf : bytes) : generator Z := unpack_dds_from buf 0.

(** ** The storage layer, as far as this module calls it *)

(** An entry of a netnode enumeration: [entry.parsed_key.index] and
    [entry.value]. *)
Record Entry : Type := mkEntry {
  parsed_key_index : Z;
  value : Z
}.

(** Modelled from the spec: the database container and the netnode store
    ([idb.fileformat], [idb.netnode]) are sibling modules that this file
    only calls.  [id1_get_segment] is [db.id1.get_segment]: the segment
    (its bounds) that contains the address, [None] standing for the
    [KeyError] of a lookup failure.  [supval] is
    [Netnode(db, nodeid).supval(index, tag)], [charentries] is the run of
    [Netnode(db, nodeid).charentries(tag)], [nodebase] the base address
    that member node ids are offsets from. *)
Record IDB : Type := mkIDB {
  wordsize : Z;
  id1_get_segment : Z -> option (Z * Z);
  supval : Z -> ascii -> Z -> result bytes;
  charentries : Z -> ascii -> generator Entry;
  nodebase : Z
}.

(** Modelled from the spec: a segment table, for building concrete
    databases; an address is inside a segment when it lies between its
    start (included) and its end (excluded). *)
Fixpoint segment_lookup (segments : list (Z * Z)) (ea : Z) : option (Z * Z) :=
  match segments with
  | [] => None
  | (lo, hi) :: rest =>
      if (lo <=? ea) && (ea <? hi) then Some (lo, hi)
      else segment_lookup rest ea
  end.

(** ** Index classification ([_Analysis]) *)

Inductive IndexType : Type := ALL | ADDRESSES | NUMBERS | NODES.

(** [_Analysis._is_address]: [try: get_segment(index); return True],
    [except KeyError: return False]. *)
Definition _is_address (db : IDB) (index : Z) : bool :=
  match id1_get_segment db index with
  | Some _ => true
  | None => false
  end.

(** [_Analysis._is_node] *)
Definition _is_node (db : IDB) (index : Z) : result bool :=
  if wordsize db =? 4 then
    Ok (Z.land index 0xFF000000 =? 0xFF000000)
  else if wordsize db =? 8 then
    Ok (Z.land index 0xFF00000000000000 =? 0xFF00000000000000)
  else Raise RuntimeError.

(** [_Analysis._is_number]: [and] evaluates its right operand only when
    the left one is true. *)
Definition _is_number (db : IDB) (index : Z) : result bool :=
  if negb (_is_address db index) then
    n <- _is_node db index ;; Ok (negb n)
  else Ok false.

(** The filter that [__getattr__] picks for a field whose index is one of
    the markers. *)
Definition nfilter (db : IDB) (kind : IndexType) (index : Z) : result bool :=
  match kind with
  | ADDRESSES => Ok (_is_address db index)
  | NUMBERS => _is_number db index
  | NODES => _is_node db index
  | ALL => Ok true
  end.

(** ** Function records ([func_t]) *)

Definition FUNC_TAIL : Z := 0x00008000.

(** A computation on mutable locals: what it returns or raises, and the
    locals as it left them, which is what [finally] and [except] see. *)
Definition Block (St A : Type) : Type := St -> result A * St.

Definition seq_ {St A B} (m : Block St A) (k : Block St B) : Block St B :=
  fun st =>
    match m st with
    | (Ok _, st') => k st'
    | (Raise e, st') => (Raise e, st')
    end.

Notation "m1 >>> m2" := (seq_ m1 m2) (at level 62, right associativity) : py_scope.

(** [v, size = unpack(buf, offset=offset); offset += size; vals.append(v)] *)
Definition decode (unpack : bytes -> Z -> result (Z * Z)) (buf : bytes)
  : Block (Z * list Z) unit :=
  fun '(offset, vals) =>
    match unpack buf offset with
    | Ok (v, size) => (Ok tt, (offset + size, vals ++ [v]))
    | Raise e => (Raise e, (offset, vals))
    end.

(** The body of the [try] of [get_values]. *)
Definition optional_values (buf : bytes) : Block (Z * list Z) unit :=
  fun st =>
    match index (snd st) 2 with
    | Raise e => (Raise e, st)
    | Ok flags =>
        if negb (is_flag_set flags FUNC_TAIL) then
          (decode unpack_dd buf >>> decode unpack_dd buf >>>
           decode unpack_dw buf >>> decode unpack_dd buf >>>
           decode unpack_dw buf) st
        else
          (decode unpack_dd buf >>> decode unpack_dw buf) st
    end.

(** [func_t.get_values]: the three leading values are decoded outside the
    [try]; whatever the [try] does, [finally: return vals] returns the list
    as it stands. *)
Definition get_values (buf : bytes) : result (list Z) :=
  match (decode unpack_dd buf >>> decode unpack_dd buf >>>
         decode unpack_dw buf) (0, []) with
  | (Raise e, _) => Raise e
  | (Ok _, st) => Ok (snd (snd (optional_values buf st)))
  end.

Record func_t : Type := mk_func_t {
  buf : bytes;
  vals : list Z;
  startEA : Z;
  endEA : Z;
  flags : Z;
  frame : option Z;
  frsize : option Z;
  frregs : option Z;
  argsize : option Z;
  fpd : option Z;
  color : option Z;
  owner : option Z;
  refqty : option Z
}.

(** One assignment [self.<attr> = <expression that may raise>]. *)
Definition assign (set : func_t -> Z -> func_t) (rhs : func_t -> result Z)
  : Block func_t unit :=
  fun self =>
    match rhs self with
    | Ok v => (Ok tt, set self v)
    | Raise e => (Raise e, self)
    end.

Definition set_frame (r : func_t) (v : Z) : func_t :=
  mk_func_t (buf r) (vals r) (startEA r) (endEA r) (flags r)
    (Some v) (frsize r) (frregs r) (argsize r) (fpd r) (color r) (owner r) (refqty r).
Definition set_frsize (r : func_t) (v : Z) : func_t :=
  mk_func_t (buf r) (vals r) (startEA r) (endEA r) (flags r)
    (frame r) (Some v) (frregs r) (argsize r) (fpd r) (color r) (owner r) (refqty r).
Definition set_frregs (r : func_t) (v : Z) : func_t :=
  mk_func_t (buf r) (vals r) (startEA r) (endEA r) (flags r)
    (frame r) (frsize r) (Some v) (argsize r) (fpd r) (color r) (owner r) (refqty r).
Definition set_argsize (r : func_t) (v : Z) : func_t :=
  mk_func_t (buf r) (vals r) (startEA r) (endEA r) (flags r)
    (frame r) (frsize r) (frregs r) (Some v) (fpd r) (color r) (owner r) (refqty r).
Definition set_fpd (r : func_t) (v : Z) : func_t :=
  mk_func_t (buf r) (vals r) (startEA r) (endEA r) (flags r)
    (frame r) (frsize r) (frregs r) (argsize r) (Some v) (color r) (owner r) (refqty r).
Definition set_color (r : func_t) (v : Z) : func_t :=
  mk_func_t (buf r) (vals r) (startEA r) (endEA r) (flags r)
    (frame r) (frsize r) (frregs r) (argsize r) (fpd r) (Some v) (owner r) (refqty r).
Definition set_owner (r : func_t) (v : Z) : func_t :=
  mk_func_t (buf r) (vals r) (startEA r) (endEA r) (flags r)
    (frame r) (frsize r) (frregs r) (argsize r) (fpd r) (color r) (Some v) (refqty r).
Definition set_refqty (r : func_t) (v : Z) : func_t :=
  mk_func_t (buf r) (vals r) (startEA r) (endEA r) (flags r)
    (frame r) (frsize r) (frregs r) (argsize r) (fpd r) (color r) (owner r) (Some v).

(** [self.vals[k]] *)
Definition val_at (k : Z) (self : func_t) : result Z := index (vals self) k.

(** [func_t.__init__(buf)] *)
Definition func_t_init (buf : bytes) : result func_t :=
  vals <- get_values buf ;;
  v0 <- index vals 0 ;;
  v1 <- index vals 1 ;;
  v2 <- index vals 2 ;;
  let self :=
    mk_func_t buf vals v0 (v0 + v1) v2 None None None None None None None None in
  if negb (is_flag_set (flags self) FUNC_TAIL) then
    match (assign set_frame (val_at 3) >>> assign set_frsize (val_at 4) >>>
           assign set_frregs (val_at 5) >>> assign set_argsize (val_at 6) >>>
           assign set_fpd (val_at 7) >>> assign set_color (val_at 8)) self with
    | (Ok _, self') => Ok self'
    | (Raise IndexError, self') => Ok self'
    | (Raise e, _) => Raise e
    end
  else
    match (assign set_owner (fun self => v <- val_at 3 self ;; Ok (startEA self - v)) >>>
           assign set_refqty (val_at 4)) self with
    | (Ok _, self') => Ok self'
    | (Raise e, _) => Raise e
    end.

(** ** Structures and their members *)

Definition SF_FRAME : Z := 0x00000040.

(** [StructMember(db, nodeid)] *)
Record StructMember : Type := mkStructMember {
  member_nodeid : Z
}.

(** The locals of the frame of [Struct.get_members] inside its loop.  A
    local that has not been assigned yet is [None]; reading it raises
    [UnboundLocalError]. *)
Record members_frame : Type := mk_members_frame {
  m_vals : list Z;
  m_count : Z;
  m_i : Z;
  m_offset : Z;
  m_nodeid_offset : option Z
}.

Inductive members_state : Type :=
| MembersEntry
| MembersLoop (f : members_frame).

(** Reading a local variable. *)
Definition local (x : option Z) : result Z :=
  match x with
  | Some v => Ok v
  | None => Raise UnboundLocalError
  end.

(** One turn of [for i in range(count)], up to its [yield]. *)
Definition members_loop (db : IDB) (f : members_frame)
  : step members_state StructMember :=
  if m_i f <? m_count f then
    if wordsize db =? 4 then
      let member_vals := slice (m_vals f) (m_offset f) (m_offset f + 5) in
      let offset := m_offset f + 5 in
      match member_vals with
      | [nodeid_offset; unk1; unk2; unk3; unk4] =>
          let member_nodeid := nodebase db + nodeid_offset in
          Yield (mkStructMember member_nodeid)
                (MembersLoop (mk_members_frame (m_vals f) (m_count f)
                                (m_i f + 1) offset (Some nodeid_offset)))
      | _ => Halt (Some ValueError)
      end
    else if wordsize db =? 8 then
      let member_vals := slice (m_vals f) (m_offset f) (m_offset f + 8) in
      let offset := m_offset f + 8 in
      match member_vals with
      | [nodeid_offseta; nodeid_offsetb; unk1a; unk1b; unk2a; unk2b; unk3; unk4] =>
          match local (m_nodeid_offset f) with
          | Raise e => Halt (Some e)
          | Ok previous =>
              let nodeid_offset := Z.lor nodeid_offseta (Z.shiftl previous 32) in
              let unk1 := Z.lor unk1a (Z.shiftl unk1b 32) in
              let unk2 := Z.lor unk2a (Z.shiftl unk2b 32) in
              let member_nodeid := nodebase db + nodeid_offset in
              Yield (mkStructMember member_nodeid)
                    (MembersLoop (mk_members_frame (m_vals f) (m_count f)
                                    (m_i f + 1) offset (Some nodeid_offset)))
          end
      | _ => Halt (Some ValueError)
      end
    else Halt (Some RuntimeError)
  else Halt None.

(** [Struct(db, structid).get_members()]: the first resumption runs the
    code before the loop. *)
Definition get_members_next (db : IDB) (structid : Z) (s : members_state)
  : step members_state StructMember :=
  match s with
  | MembersLoop f => members_loop db f
  | MembersEntry =>
      let prelude :=
        v <- supval db structid "M"%char 0 ;;
        vals <- list_of (unpack_dds v) ;;
        v0 <- index vals 0 ;;
        if negb (truthy (Z.land v0 SF_FRAME)) then Raise RuntimeError
        else
          count <- index vals 1 ;;
          Ok (mk_members_frame vals count 0 2 None) in
      match prelude with
      | Raise e => Halt (Some e)
      | Ok f => members_loop db f
      end
  end.

(** ** Chunking helpers *)

(** [list(itertools.islice(g, n))] for a stop argument that [islice]
    accepts: at most [n] values are pulled; an exception of [g] comes
    through and the values pulled before it are lost. *)
Fixpoint islice {A} (n : nat) (g : generator A) : result (list A) * generator A :=
  match n with
  | O => (Ok [], g)
  | Datatypes.S n' =>
      match gen_next g with
      | Halt None => (Ok [], exhausted)
      | Halt (Some e) => (Raise e, exhausted)
      | Yield x g' =>
          let '(r, g'') := islice n' g' in
          (vs <- r ;; Ok (x :: vs), g'')
      end
  end.

(** What [chunks] is called on. *)
Inductive iterable (A : Type) : Type :=
| GeneratorType (g : generator A)
| Sequence (l : list A).

(** The frame of [chunks]: the generator it pulls from, or the list and
    the counter [i]. *)
Inductive chunks_state (A : Type) : Type :=
| FromGenerator (g : generator A)
| FromSequence (l : list A) (i : Z).

(** [l[i:i+n]] as an operation that could raise. *)
Definition getslice {A} (l : list A) (lo hi : Z) : result (list A) :=
  Ok (slice l lo hi).

Definition is_empty {A} (l : list A) : bool :=
  match l with
  | [] => true
  | _ => false
  end.

(** One resumption of [chunks(l, n)]. *)
Definition chunks_next {A} (n : Z) (s : chunks_state A)
  : step (chunks_state A) (list A) :=
  match s with
  | FromGenerator g =>
      (* islice: "Stop argument ... must be ... 0 <= x <= sys.maxsize" *)
      if (n <? 0) || (maxsize <? n) then Halt (Some ValueError)
      else
        match islice (Z.to_nat n) g with
        | (Raise e, _) => Halt (Some e)
        | (Ok v, g') =>
            if is_empty v then Halt None else Yield v (FromGenerator g')
        end
  | FromSequence l i =>
      match getslice l i (i + n) with
      | Ok v => Yield v (FromSequence l (i + n))
      | Raise IndexError => Halt None
      | Raise e => Halt (Some e)
      end
  end.

(** [chunks(l, n)]: the [isinstance] test chooses the loop. *)
Definition chunks {A} (l : iterable A) : chunks_state A :=
  match l with
  | GeneratorType g => FromGenerator g
  | Sequence l => FromSequence l 0
  end.

(** [pairs(l)] is [chunks(l, 2)]. *)
Definition pairs {A} (l : iterable A) : chunks_state A := chunks l.
Definition pairs_next {A} : chunks_state A -> step (chunks_state A) (list A) :=
  chunks_next 2.

(** ** Function details *)

Record StackChangePoint : Type := mkStackChangePoint {
  effective_address : Z;
  change : Z
}.

Inductive scp_state : Type :=
| ScpEntry
| ScpLoop (offset : Z) (it : chunks_state Z).

(** One turn of the loop of [get_stack_change_points]. *)
Definition scp_loop (offset : Z) (it : chunks_state Z)
  : step scp_state StackChangePoint :=
  match pairs_next it with
  | Halt e => Halt e
  | Yield [delta; change] it' =>
      let offset := offset + delta in
      let change :=
        if truthy (Z.land change 1) then Z.shiftr change 1
        else - Z.shiftr change 1 in
      Yield (mkStackChangePoint offset change) (ScpLoop offset it')
  | Yield _ _ => Halt (Some ValueError)
  end.

(** [Function(db, fva).get_stack_change_points()] *)
Definition get_stack_change_points_next (db : IDB) (fva : Z) (s : scp_state)
  : step scp_state StackChangePoint :=
  match s with
  | ScpLoop offset it => scp_loop offset it
  | ScpEntry =>
      match supval db fva "S"%char 0x1000 with
      | Raise e => Halt (Some e)
      | Ok v => scp_loop fva (pairs (GeneratorType (unpack_dds v)))
      end
  end.

(** ** Cross references *)

Record Xref : Type := mkXref {
  src : Z;
  dst : Z;
  type : Z
}.

(** Truth value of an argument that is [None] or an [int]. *)
Definition given (a : option Z) : bool :=
  match a with
  | None => false
  | Some z => truthy z
  end.

(** Truth value of [types]: [None] or a collection. *)
Definition nonempty (types : option (list Z)) : bool :=
  match types with
  | None => false
  | Some l => negb (is_empty l)
  end.

(** [value in types] *)
Definition contains (types : option (list Z)) (v : Z) : bool :=
  match types with
  | None => false
  | Some l => existsb (Z.eqb v) l
  end.

(** [src or dst] *)
Definition or_ (a b : option Z) : option Z := if given a then a else b.

Inductive xrefs_state : Type :=
| XrefsEntry
| XrefsLoop (entries : generator Entry).

(** The [for] loop of [_get_xrefs] inside its [try], up to the next
    [yield]: entries that the filter rejects are passed over. *)
Fixpoint xrefs_loop (src dst : option Z) (types : option (list Z))
  (entries : list Entry) (e : option exn) : step xrefs_state Xref :=
  match entries with
  | [] =>
      match e with
      | None => Halt None
      | Some KeyError => Halt None
      | Some x => Halt (Some x)
      end
  | entry :: rest =>
      if (nonempty types && contains types (value entry)) || negb (nonempty types)
      then
        match (if given src then src else dst) with
        | Some ea =>
            Yield (if given src
                   then mkXref ea (parsed_key_index entry) (value entry)
                   else mkXref (parsed_key_index entry) ea (value entry))
                  (XrefsLoop (rest, e))
        | None => Halt (Some TypeError) (* not reached: see the entry test *)
        end
      else xrefs_loop src dst types rest e
  end.

(** [_get_xrefs(db, tag, src=None, dst=None, types=None)] *)
Definition _get_xrefs_next (db : IDB) (tag : ascii) (src dst : option Z)
  (types : option (list Z)) (s : xrefs_state) : step xrefs_state Xref :=
  match s with
  | XrefsLoop (entries, e) => xrefs_loop src dst types entries e
  | XrefsEntry =>
      if negb (given src) && negb (given dst) then Halt (Some ValueError)
      else
        match or_ src dst with
        | None => Halt (Some TypeError) (* not reached: one of them is given *)
        | Some nodeid =>
            let '(entries, e) := charentries db nodeid tag in
            xrefs_loop src dst types entries e
        end
  end.

(** The four queries; each returns the generator of [_get_xrefs]. *)
Definition get_crefs_to_next (db : IDB) (ea : Z) (types : option (list Z)) :=
  _get_xrefs_next db "X"%char None (Some ea) types.
Definition get_crefs_from_next (db : IDB) (ea : Z) (types : option (list Z)) :=
  _get_xrefs_next db "x"%char (Some ea) None types.
Definition get_drefs_to_next (db : IDB) (ea : Z) (types : option (list Z)) :=
  _get_xrefs_next db "D"%char None (Some ea) types.
Definition get_drefs_from_next (db : IDB) (ea : Z) (types : option (list Z)) :=
  _get_xrefs_next db "d"%char (Some ea) None types.

(** ** Reference definitions and sample inputs

    What the properties below compare the code with, and the concrete
    buffers and databases they are instantiated on. *)

(** The number of bytes that the top bits of the leading byte announce. *)
Definition dd_width (header : Z) : Z :=
  if Z.land header 0x80 =? 0 then 1
  else if negb (Z.land header 0xC0 =? 0xC0) then 2
  else if Z.land header 0xE0 =? 0xE0 then 5
  else 4.

(** The documented value of an encoding, by its width. *)
Definition dd_documented (enc : bytes) : option Z :=
  match map byte_val enc with
  | [b] => Some b
  | [b; next_byte] => Some (Z.shiftl (Z.land b 0x7F) 8 + next_byte)
  | [b; b1; b2; b3] =>
      let hi := Z.shiftl (Z.land b 0x3F) 8 + b1 in
      let low := Z.shiftl b2 8 + b3 in
      Some (Z.shiftl hi 16 + low)
  | [_; b1; b2; b3; b4] =>
      let hi := Z.shiftl b1 8 + b2 in
      let low := Z.shiftl b3 8 + b4 in
      Some (Z.shiftl hi 16 + low)
  | _ => None
  end.

(** A valid encoding: a leading byte followed by as many bytes as its top
    bits announce. *)
Definition dd_valid (enc : bytes) : Prop :=
  match enc with
  | [] => False
  | header :: _ => len enc = dd_width (byte_val header)
  end.

(** The claim that the three classes exclude one another. *)
Definition exclusive_classes (db : IDB) (index : Z) : Prop :=
  (_is_node db index = Ok true -> _is_address db index = false) /\
  (_is_address db index = true ->
   _is_node db index = Ok false /\ _is_number db index = Ok false).

(** A 4-byte-word database with one segment, [0xFF000000, 0xFF001000). *)
Definition high_segment_db : IDB :=
  mkIDB 4 (segment_lookup [(0xFF000000, 0xFF001000)])
        (fun _ _ _ => Raise KeyError) (fun _ _ => exhausted) 0xFF000000.

(** A record whose flags have FUNC_TAIL set and whose buffer stops before
    the owner delta: start 0x10, size 5, flags 0x8000, and nothing else. *)
Definition truncated_tail : bytes := [x10; x05; xc0; x80; x00].

(** A record without FUNC_TAIL that holds the five optional values
    1, 2, 3, 4 and 7 after start 0x10, size 5 and flags 0. *)
Definition full_record : bytes := [x10; x05; x00; x01; x02; x03; x04; x07].

(** The consecutive groups of [n] elements of a list, the last one
    possibly shorter. *)
Equations? groups {A} (n : nat) (xs : list A) : list (list A)
  by wf (List.length xs) lt :=
  groups O _ := [];
  groups _ [] := [];
  groups (Datatypes.S m) (x :: xs) :=
    (x :: firstn m xs) :: groups (Datatypes.S m) (skipn m xs).
Proof.
  rewrite length_skipn. simpl. lia.
Qed.

(** An 8-byte-word database whose structure node holds the member array
    [0x40, 1, 5, 0, 0, 0, 0, 0, 0, 0]: one member, node-id offset 5. *)
Definition one_member_db (ws : Z) : IDB :=
  mkIDB ws (fun _ => None)
        (fun _ _ _ => Ok [x40; x01; x05; x00; x00; x00; x00; x00; x00; x00])
        (fun _ _ => exhausted) 0xFF00000000000000.

(** The decoded values of a buffer, read as (delta, encoded change)
    pairs. *)
Fixpoint flatten (ps : list (Z * Z)) : list Z :=
  match ps with
  | [] => []
  | (delta, encoded_change) :: rest => delta :: encoded_change :: flatten rest
  end.

(** The documented change points: offsets accumulate the deltas, and the
    low bit of the encoded change selects the sign. *)
Fixpoint change_points (offset : Z) (ps : list (Z * Z)) : list StackChangePoint :=
  match ps with
  | [] => []
  | (delta, encoded_change) :: rest =>
      mkStackChangePoint
        (offset + delta)
        (if Z.testbit encoded_change 0
         then Z.shiftr encoded_change 1
         else - Z.shiftr encoded_change 1)
      :: change_points (offset + delta) rest
  end.

(** A database whose function node holds the change-point array
    [4, 7, 8, 6] at tag S, index 0x1000. *)
Definition two_points_db : IDB :=
  mkIDB 4 (fun _ => None) (fun _ _ _ => Ok [x04; x07; x08; x06])
        (fun _ _ => exhausted) 0xFF000000.

(** Whether the type filter lets an entry through: a collection that is
    given and not empty is a whitelist; otherwise everything passes. *)
Definition passes (types : option (list Z)) (entry : Entry) : bool :=
  match types with
  | Some (t :: ts) => existsb (Z.eqb (value entry)) (t :: ts)
  | _ => true
  end.

(** The reference built from an entry of the node of [src], and of the
    node of [dst]. *)
Definition xref_from (src : Z) (entry : Entry) : Xref :=
  mkXref src (parsed_key_index entry) (value entry).
Definition xref_to (dst : Z) (entry : Entry) : Xref :=
  mkXref (parsed_key_index entry) dst (value entry).

(** The reference that [_get_xrefs] builds for the arguments it got. *)
Definition xref_of (src dst : option Z) (ea : Z) (entry : Entry) : Xref :=
  if given src then xref_from ea entry else xref_to ea entry.

(** A database whose node 0x401000 has one entry, of type code 17, under
    every tag. *)
Definition one_entry_db : IDB :=
  mkIDB 4 (fun _ => None) (fun _ _ _ => Raise KeyError)
        (fun _ _ => ([mkEntry 0x402000 17], None)) 0xFF000000.

(** ** Further functions of the module *)

(** The part of the buffer that a decoder called with [offset] reads. *)
Definition seek (buf : bytes) (offset : Z) : bytes :=
  if negb (offset =? 0) then slice_from buf offset else buf.

(** The values that a sequence of encodings stands for. *)
Definition encodes (encs : list bytes) (vals : list Z) : Prop :=
  Forall2 (fun enc v => dd_valid enc /\ dd_documented enc = Some v) encs vals.

(** The members that a 4-byte-word array describes: the [k]-th member's
    node is the base address plus the value at position [2 + 5 * k]. *)
Definition members_of (db : IDB) (vals : list Z) (n : nat) : list StructMember :=
  map (fun k => mkStructMember (nodebase db + nth (2 + 5 * k) vals 0)) (seq 0 n).

(** [Chunk], the named tuple [(effective_address, length)]. *)
Record Chunk : Type := mkChunk {
  chunk_effective_address : Z;
  chunk_length : Z
}.

Inductive get_chunks_state : Type :=
| ChunksEntry
| ChunksLoop (last_ea last_length : Z) (it : chunks_state Z).

(** One turn of the loop of [get_chunks]. *)
Definition get_chunks_loop (last_ea last_length : Z) (it : chunks_state Z)
  : step get_chunks_state Chunk :=
  match pairs_next it with
  | Halt e => Halt e
  | Yield [delta; length] it' =>
      let ea := last_ea + last_length + delta in
      Yield (mkChunk ea length) (ChunksLoop ea length it')
  | Yield _ _ => Halt (Some ValueError)
  end.

(** [Function(db, fva).get_chunks()] *)
Definition get_chunks_next (db : IDB) (fva : Z) (s : get_chunks_state)
  : step get_chunks_state Chunk :=
  match s with
  | ChunksLoop last_ea last_length it => get_chunks_loop last_ea last_length it
  | ChunksEntry =>
      match supval db fva "S"%char 0x7000 with
      | Raise e => Halt (Some e)
      | Ok v => get_chunks_loop 0 0 (pairs (GeneratorType (unpack_dds v)))
      end
  end.

(** The chunks that a sequence of (delta, length) pairs stands for: each
    one starts [delta] after the end of the one before. *)
Fixpoint chunk_list (last_end : Z) (ps : list (Z * Z)) : list Chunk :=
  match ps with
  | [] => []
  | (delta, length) :: rest =>
      mkChunk (last_end + delta) length
      :: chunk_list (last_end + delta + length) rest
  end.

(** Chunks in ascending order that do not overlap: each one starts at or
    after [floor], and the next ones at or after its end. *)
Fixpoint ascending_from (floor : Z) (cs : list Chunk) : Prop :=
  match cs with
  | [] => True
  | c :: rest =>
      floor <= chunk_effective_address c /\
      0 <= chunk_length c /\
      ascending_from (chunk_effective_address c + chunk_length c) rest
  end.

(** The full groups of [n] elements of a list: what is left at the end,
    if it is shorter than [n], is not among them. *)
Definition full_groups {A} (n : nat) (xs : list A) : list (list A) :=
  firstn (List.length xs / n) (groups n xs).

(** How [_get_xrefs] ends when the enumeration of the node ended with
    [e]: [KeyError] is caught, anything else comes through. *)
Definition after_key_error (e : option exn) : option exn :=
  match e with
  | Some KeyError => None
  | _ => e
  end.

(** *** Segment records ([Seg]) *)

Module Seg.

Record t : Type := mk {
  buf : bytes;
  vals : list Z;
  startEA : Z;
  endEA : Z;
  name_index : Z;
  sclass : Z;
  orgbase : Z;
  align : Z;
  comb : Z;
  perm : Z;
  bitness : Z;
  flags : Z;
  sel : Z;
  defsr : Z;
  type : Z;
  color : Z
}.

End Seg.

(** [Seg.__init__(buf)]: the thirteenth value is read twice, into [type]
    and into [color]. *)
Definition Seg_init (buf : bytes) : result Seg.t :=
  vals <- list_of (unpack_dds buf) ;;
  startEA <- index vals 0 ;;
  size <- index vals 1 ;;
  let endEA := startEA + size in
  name_index <- index vals 2 ;;
  sclass <- index vals 3 ;;
  orgbase <- index vals 4 ;;
  align <- index vals 5 ;;
  comb <- index vals 6 ;;
  perm <- index vals 7 ;;
  bitness <- index vals 8 ;;
  flags <- index vals 9 ;;
  sel <- index vals 10 ;;
  defsr <- index vals 11 ;;
  type <- index vals 12 ;;
  color <- index vals 12 ;;
  Ok (Seg.mk buf vals startEA endEA name_index sclass orgbase align comb perm
             bitness flags sel defsr type color).

(** *** Field tables ([Field], [_Analysis]) *)

(** The index of a field: a number, or one of the markers of
    [VARIABLE_INDEXES]. *)
Inductive FieldIndex : Type :=
| Literal (i : Z)
| Marker (m : IndexType).

Module Field.

(** [Field(name, tag, index, cast)]; [cast] defaults to [None]. *)
Record t (V : Type) : Type := mk {
  name : String.string;
  tag : ascii;
  index : FieldIndex;
  cast : option (bytes -> result V)
}.

End Field.

(** An entry of [netnode.supentries]: [sup.parsed_key.index] and
    [sup.value]. *)
Record SupEntry : Type := mkSupEntry {
  sup_index : Z;
  sup_value : bytes
}.

(** Modelled from the spec: the netnode that an analyzer opens by name
    ([idb.netnode.Netnode], not part of this file): [nn_supval] is
    [supval(index, tag=tag)], [nn_supentries] the run of
    [supentries(tag=tag)]. *)
Record Netnode : Type := mkNetnode {
  nn_supval : Z -> ascii -> result bytes;
  nn_supentries : ascii -> generator SupEntry
}.

(** [_Analysis(db, nodeid, fields)], with its netnode opened. *)
Record _Analysis (V : Type) : Type := mk_Analysis {
  idb : IDB;
  netnode : Netnode;
  fields : list (Field.t V)
}.

(** [self._fields_by_name = {f.name: f for f in self.fields}], looked up:
    a later field replaces an earlier one of the same name. *)
Fixpoint _fields_by_name {V} (fields : list (Field.t V)) (key : String.string)
  : option (Field.t V) :=
  match fields with
  | [] => None
  | f :: rest =>
      match _fields_by_name rest key with
      | Some g => Some g
      | None => if String.eqb (Field.name f) key then Some f else None
      end
  end.

(** What a field resolves to: the bytes themselves, or what [cast] made
    of them. *)
Inductive field_value (V : Type) : Type :=
| Raw (b : bytes)
| Parsed (v : V).
Arguments Raw {V} b.

(** [field.cast(bytes(v))], or [bytes(v)] when there is no cast. *)
Definition apply_cast {V} (cast : option (bytes -> result V)) (v : bytes)
  : result (field_value V) :=
  match cast with
  | None => Ok (Raw v)
  | Some f => x <- f v ;; Ok (Parsed x)
  end.

(** A [dict] with integer keys, in insertion order. *)
Definition dict (V : Type) : Type := list (Z * V).

(** [d[k] = v] *)
Fixpoint dict_set {V} (d : dict V) (k : Z) (v : V) : dict V :=
  match d with
  | [] => [(k, v)]
  | (k', v') :: rest =>
      if k' =? k then (k, v) :: rest else (k', v') :: dict_set rest k v
  end.

(** [d.get(k)] *)
Fixpoint dict_get {V} (d : dict V) (k : Z) : option V :=
  match d with
  | [] => None
  | (k', v') :: rest => if k' =? k then Some v' else dict_get rest k
  end.

(** The loop of [__getattr__] over the entries of the node. *)
Fixpoint getattr_loop {V} (keep : Z -> result bool)
  (cast : option (bytes -> result V)) (entries : list SupEntry)
  (e : option exn) (ret : dict (field_value V)) : result (dict (field_value V)) :=
  match entries with
  | [] =>
      match e with
      | None => Ok ret
      | Some x => Raise x
      end
  | sup :: rest =>
      ok <- keep (sup_index sup) ;;
      if negb ok then getattr_loop keep cast rest e ret
      else
        v <- apply_cast cast (sup_value sup) ;;
        getattr_loop keep cast rest e (dict_set ret (sup_index sup) v)
  end.

(** What [__getattr__] returns: one value, or a mapping from index to
    value. *)
Inductive attribute (V : Type) : Type :=
| Single (v : field_value V)
| Mapping (d : dict (field_value V)).

(** [_Analysis.__getattr__(key)].  For a name that is not in the table the
    code calls [super(Analysis, self)], where [Analysis] is the function
    defined below the class and not a type. *)
Definition __getattr__ {V} (self : _Analysis V) (key : String.string)
  : result (attribute V) :=
  match _fields_by_name (fields self) key with
  | None => Raise TypeError
  | Some field =>
      match Field.index field with
      | Marker m =>
          let '(entries, e) := nn_supentries (netnode self) (Field.tag field) in
          ret <- getattr_loop (nfilter (idb self) m) (Field.cast field)
                              entries e [] ;;
          Ok (Mapping ret)
      | Literal i =>
          v <- nn_supval (netnode self) i (Field.tag field) ;;
          x <- apply_cast (Field.cast field) v ;;
          Ok (Single x)
      end
  end.

(** [_Analysis.get_field_tag(name)] *)
Definition get_field_tag {V} (self : _Analysis V) (name : String.string)
  : result ascii :=
  match _fields_by_name (fields self) name with
  | Some f => Ok (Field.tag f)
  | None => Raise KeyError
  end.

(** [_Analysis.get_field_index(name)] *)
Definition get_field_index {V} (self : _Analysis V) (name : String.string)
  : result FieldIndex :=
  match _fields_by_name (fields self) name with
  | Some f => Ok (Field.index f)
  | None => Raise KeyError
  end.

(** The value that a mapping field holds for an index: that of the last
    entry with this index among those that the filter keeps. *)
Fixpoint last_kept (keep : Z -> bool) (entries : list SupEntry) (k : Z)
  : option bytes :=
  match entries with
  | [] => None
  | sup :: rest =>
      match last_kept keep rest k with
      | Some v => Some v
      | None =>
          if keep (sup_index sup) && (sup_index sup =? k)
          then Some (sup_value sup) else None
      end
  end.

(** Whether the filter of a marker keeps an index, when it returns. *)
Definition kept (db : IDB) (m : IndexType) (k : Z) : bool :=
  match nfilter db m k with
  | Ok b => b
  | Raise _ => false
  end.

(** A field table in the manner of [EntryPoints], with a field for each
    of the four markers over tag S and no cast, bound to a 4-byte-word
    database with one segment, [0x401000, 0x402000), and to a node with
    three entries: an address, a node id and a number. *)
Definition sample_analysis : _Analysis unit :=
  mk_Analysis
    (mkIDB 4 (segment_lookup [(0x401000, 0x402000)])
           (fun _ _ _ => Raise KeyError) (fun _ _ => exhausted) 0xFF000000)
    (mkNetnode (fun _ _ => Raise KeyError)
               (fun _ => ([mkSupEntry 0x401000 [x41];
                           mkSupEntry 0xFF000010 [x42];
                           mkSupEntry 1 [x43]], None)))
    [Field.mk "ordinals"%string "S"%char (Marker NUMBERS) None;
     Field.mk "addresses"%string "S"%char (Marker ADDRESSES) None;
     Field.mk "all"%string "S"%char (Marker ALL) None;
     Field.mk "nodes"%string "S"%char (Marker NODES) None].

(** Whether a mapping has a key. *)
Definition has_key {V} (d : dict V) (k : Z) : Prop := dict_get d k <> None.

(** *** Text *)

(** A [str], as its characters. *)
Definition str : Type := list ascii.

(** The digits that [binascii.hexlify] writes. *)
Definition lower_hex : list ascii :=
  ["0"; "1"; "2"; "3"; "4"; "5"; "6"; "7"; "8"; "9";
   "a"; "b"; "c"; "d"; "e"; "f"]%char.

(** The digits that the [%X] conversion writes. *)
Definition upper_hex : list ascii :=
  ["0"; "1"; "2"; "3"; "4"; "5"; "6"; "7"; "8"; "9";
   "A"; "B"; "C"; "D"; "E"; "F"]%char.

(** The digit for a value below 16. *)
Definition digit (alphabet : list ascii) (n : Z) : ascii :=
  nth (Z.to_nat n) alphabet "0"%char.

(** [binascii.hexlify(buf)]: two digits per byte, the high half first. *)
Definition hexlify (buf : bytes) : list ascii :=
  flat_map (fun b => [digit lower_hex (Z.shiftr (byte_val b) 4);
                      digit lower_hex (Z.land (byte_val b) 0xF)]) buf.

(** [as_md5(buf)]: [hexlify(buf).decode('ascii')]; the digits are ASCII,
    so decoding keeps them as they are. *)
Definition as_md5 (buf : bytes) : str := hexlify buf.

(** The digits of a non-negative number in base 16, most significant
    first, without leading zeros. *)
Equations? hex_digits (n : Z) : str by wf (Z.to_nat n) lt :=
  hex_digits n with inspect (n <? 16) := {
    | exist _ true _ => [digit upper_hex n]
    | exist _ false Hge => hex_digits (n / 16) ++ [digit upper_hex (n mod 16)] }.
Proof.
  apply Z.ltb_ge in Hge.
  assert (n / 16 < n) by (apply Z.div_lt; lia).
  assert (0 <= n / 16) by (apply Z.div_pos; lia). lia.
Qed.

(** ['%X' % n] *)
Definition format_X (n : Z) : str :=
  if n <? 0 then "-"%char :: hex_digits (- n) else hex_digits n.

(** [Function.get_name()], given what [self.netnode.name()] does: only
    [KeyError] makes it fall back on the address. *)
Definition Function_get_name (name : result str) (nodeid : Z) : result str :=
  match name with
  | Ok s => Ok s
  | Raise KeyError => Ok (["s"; "u"; "b"; "_"]%char ++ format_X nodeid)
  | Raise e => Raise e
  end.

(** [s.partition(sep)] for a one-character separator: what is before the
    first separator, the separator if there is one, what is after it. *)
Fixpoint partition (sep : ascii) (s : str) : str * str * str :=
  match s with
  | [] => ([], [], [])
  | c :: rest =>
      if Ascii.eqb c sep then ([], [sep], rest)
      else let '(head, mid, tail) := partition sep rest in (c :: head, mid, tail)
  end.

(** [StructMember.get_name()], given what [self.netnode.name()] does:
    [name().partition('.')[2]]. *)
Definition StructMember_get_name (name : result str) : result str :=
  s <- name ;; Ok (snd (partition "."%char s)).

(** The value of a digit of either alphabet. *)
Definition digit_value (c : ascii) : option Z :=
  match find (fun p => Ascii.eqb (fst p) c)
             (combine (upper_hex ++ skipn 10 lower_hex)
                      [0; 1; 2; 3; 4; 5; 6; 7; 8; 9; 10; 11; 12; 13; 14; 15;
                       10; 11; 12; 13; 14; 15]) with
  | Some p => Some (snd p)
  | None => None
  end.

(** The number that a string of digits writes in base 16. *)
Definition parse_hex (s : str) : option Z :=
  fold_left (fun acc c =>
               match acc, digit_value c with
               | Some a, Some d => Some (16 * a + d)
               | _, _ => None
               end) s (Some 0).

(** The bytes that a string of pairs of digits writes. *)
Fixpoint unhexlify (s : str) : option bytes :=
  match s with
  | [] => Some []
  | hi :: lo :: rest =>
      match digit_value hi, digit_value lo, unhexlify rest with
      | Some h, Some l, Some bs =>
          match Byte.of_N (Z.to_N (16 * h + l)) with
          | Some b => Some (b :: bs)
          | None => None
          end
      | _, _, _ => None
      end
  | [_] => None
  end.

(** * Properties *)

(** ** Python fragment *)

Lemma len_nonneg {A} (l : list A) : 0 <= len l.
Proof. unfold len. lia. Qed.

Lemma len_app {A} (l1 l2 : list A) : len (l1 ++ l2) = len l1 + len l2.
Proof. unfold len. rewrite length_app. lia. Qed.

Lemma slice_from_app {A} (pre rest : list A) :
  slice_from (pre ++ rest) (len pre) = rest.
Proof.
  unfold slice_from, clamp.
  pose proof (len_nonneg pre) as Hp. pose proof (len_nonneg rest) as Hr.
  destruct (len pre <? 0) eqn:E; [apply Z.ltb_lt in E; lia |].
  rewrite len_app, Z.min_l by lia.
  unfold len. rewrite Nat2Z.id.
  rewrite skipn_app, skipn_all, Nat.sub_diag. reflexivity.
Qed.

(** The buffer that a decoder looks at when it is given an offset equal to
    the length of a prefix. *)
Lemma at_offset_app (pre rest : bytes) :
  (if negb (len pre =? 0) then slice_from (pre ++ rest) (len pre) else pre ++ rest)
  = rest.
Proof.
  destruct (len pre =? 0) eqn:E; simpl.
  - apply Z.eqb_eq in E. destruct pre; [reflexivity | unfold len in E; simpl in E; lia].
  - apply slice_from_app.
Qed.

Lemma byte_val_range (b : byte) : 0 <= byte_val b < 256.
Proof.
  unfold byte_val. pose proof (Byte.to_N_bounded b) as H.
  split; [lia |]. apply N2Z.inj_le in H. simpl in H. lia.
Qed.

(** ** Packed integer codec *)

Lemma dd_width_cases (h : Z) :
  dd_width h = 1 \/ dd_width h = 2 \/ dd_width h = 4 \/ dd_width h = 5.
Proof.
  unfold dd_width.
  destruct (Z.land h 0x80 =? 0); auto.
  destruct (Z.land h 0xC0 =? 0xC0); simpl; auto.
  destruct (Z.land h 0xE0 =? 0xE0); auto.
Qed.

Lemma len_cons {A} (a : A) (l : list A) : len (a :: l) = 1 + len l.
Proof. unfold len. cbn [List.length]. lia. Qed.

Lemma unpack_dd_at (pre enc rest : bytes) :
  dd_valid enc ->
  exists v, dd_documented enc = Some v /\
            unpack_dd (pre ++ enc ++ rest) (len pre) = Ok (v, len enc).
Proof.
  intros Hv. unfold unpack_dd. rewrite at_offset_app.
  destruct enc as [|h enc]; [contradiction |].
  unfold dd_valid in Hv. rewrite Hv.
  unfold dd_width in *. unfold dd_documented.
  cbn [app map byte_at index bind Z.ltb Z.compare Z.to_nat nth_error].
  assert (Hnil : len (@nil byte) = 0) by reflexivity.
  destruct (Z.land (byte_val h) 0x80 =? 0);
    [| destruct (Z.land (byte_val h) 0xC0 =? 0xC0); cbn [negb];
       [destruct (Z.land (byte_val h) 0xE0 =? 0xE0) |]];
    destruct enc as [|b1 [|b2 [|b3 [|b4 [|b5 enc]]]]];
    solve [ exfalso; cbn [negb] in Hv; rewrite ?len_cons, ?Hnil in Hv;
            try pose proof (len_nonneg enc); lia
          | eexists; split; reflexivity ].
Qed.

Lemma unpack_dd_consumed (buf : bytes) (offset v n : Z) :
  unpack_dd buf offset = Ok (v, n) ->
  exists header,
    byte_at (if negb (offset =? 0) then slice_from buf offset else buf) 0 = Ok header /\
    n = dd_width header.
Proof.
  unfold unpack_dd, dd_width. intros H.
  destruct (byte_at _ 0) as [header|e] eqn:Hh; [| discriminate].
  exists header. split; [reflexivity |].
  cbn [bind] in H.
  repeat match type of H with
         | (if ?c then _ else _) = _ => destruct c
         | bind ?x _ = _ => destruct x; cbn [bind] in H; try discriminate
         end;
    inversion H; reflexivity.
Qed.

(** The tests on the leading byte, by its top bits. *)
Lemma top_bits (b : byte) :
  let h := byte_val b in
  (Z.land h 0xC0 = 0x80 ->
   (Z.land h 0x80 =? 0) = false /\ (Z.land h 0xC0 =? 0xC0) = false) /\
  (Z.land h 0xE0 = 0xE0 ->
   (Z.land h 0x80 =? 0) = false /\ (Z.land h 0xC0 =? 0xC0) = true /\
   (Z.land h 0xE0 =? 0xE0) = true) /\
  (Z.land h 0xE0 = 0xC0 ->
   (Z.land h 0x80 =? 0) = false /\ (Z.land h 0xC0 =? 0xC0) = true /\
   (Z.land h 0xE0 =? 0xE0) = false).
Proof.
  destruct b; vm_compute; repeat split; intros; congruence.
Qed.

(** C3. [unpack_dd] decodes every valid encoding, wherever it starts in the
    buffer, at the documented width: top bit clear, the byte itself and 1
    byte; top bits 10, [((byte & 0x7F) << 8) + next_byte] and 2 bytes; top
    bits 111, [(hi << 16) + low] from the four following bytes and 5 bytes;
    the other top-bits-11 case, [hi = ((byte & 0x3F) << 8) + b1],
    [low = (b2 << 8) + b3] and 4 bytes.  Whenever it returns, the number of
    bytes consumed is the one that the top bits of the leading byte
    announce; 0x00 and 0x7F decode from 1 byte, 0x80 and 0x3FFF from 2. *)
Theorem unpack_dd_documented_widths :
  forall (pre rest : bytes) (b : byte),
    let h := byte_val b in
    (Z.land h 0x80 = 0 ->
     unpack_dd (pre ++ [b] ++ rest) (len pre) = Ok (h, 1)) /\
    (forall b1, Z.land h 0xC0 = 0x80 ->
     unpack_dd (pre ++ [b; b1] ++ rest) (len pre)
     = Ok (Z.shiftl (Z.land h 0x7F) 8 + byte_val b1, 2)) /\
    (forall b1 b2 b3 b4, Z.land h 0xE0 = 0xE0 ->
     unpack_dd (pre ++ [b; b1; b2; b3; b4] ++ rest) (len pre)
     = Ok (Z.shiftl (Z.shiftl (byte_val b1) 8 + byte_val b2) 16
           + (Z.shiftl (byte_val b3) 8 + byte_val b4), 5)) /\
    (forall b1 b2 b3, Z.land h 0xE0 = 0xC0 ->
     unpack_dd (pre ++ [b; b1; b2; b3] ++ rest) (len pre)
     = Ok (Z.shiftl (Z.shiftl (Z.land h 0x3F) 8 + byte_val b1) 16
           + (Z.shiftl (byte_val b2) 8 + byte_val b3), 4)) /\
    (forall v n, unpack_dd (pre ++ b :: rest) (len pre) = Ok (v, n) ->
     n = dd_width h) /\
    unpack_dd [x00] 0 = Ok (0x00, 1) /\
    unpack_dd [x7f] 0 = Ok (0x7F, 1) /\
    unpack_dd [x80; x80] 0 = Ok (0x80, 2) /\
    unpack_dd [xbf; xff] 0 = Ok (0x3FFF, 2).
Proof.
  intros pre rest b h.
  destruct (top_bits b) as (H10 & H111 & H110). fold h in H10, H111, H110.
  repeat split; try reflexivity.
  - intros H0. unfold unpack_dd. rewrite at_offset_app. simpl.
    fold h. rewrite H0. reflexivity.
  - intros b1 Hb. destruct (H10 Hb) as [E1 E2].
    unfold unpack_dd. rewrite at_offset_app. simpl.
    fold h. rewrite E1, E2. reflexivity.
  - intros b1 b2 b3 b4 Hb. destruct (H111 Hb) as (E1 & E2 & E3).
    unfold unpack_dd. rewrite at_offset_app. simpl.
    fold h. rewrite E1, E2, E3. reflexivity.
  - intros b1 b2 b3 Hb. destruct (H110 Hb) as (E1 & E2 & E3).
    unfold unpack_dd. rewrite at_offset_app. simpl.
    fold h. rewrite E1, E2, E3. reflexivity.
  - intros v n Hdd. apply unpack_dd_consumed in Hdd.
    destruct Hdd as (header & Hh & ->).
    rewrite at_offset_app in Hh. simpl in Hh. inversion Hh. reflexivity.
Qed.

Lemma unpack_dd_documented_widths_witness :
  Z.land (byte_val xc1) 0xE0 = 0xC0 /\
  unpack_dd ([x05] ++ [xc1; x02; x03; x04] ++ [x0a]) (len [x05])
  = Ok (Z.shiftl (Z.shiftl (Z.land (byte_val xc1) 0x3F) 8 + byte_val x02) 16
        + (Z.shiftl (byte_val x03) 8 + byte_val x04), 4).
Proof.
  split; [reflexivity |].
  apply (proj1 (proj2 (proj2 (proj2
           (unpack_dd_documented_widths [x05] [x0a] xc1))))).
  reflexivity.
Defined.

(** [unpack_dq] never returns: if both halves decode, shifting the tuple
    that [unpack_dd] returned raises [TypeError]. *)
Lemma unpack_dq_raises (buf : bytes) (offset : Z) :
  exists e, unpack_dq buf offset = Raise e.
Proof.
  unfold unpack_dq.
  destruct (unpack_dd _ 0) as [dw1|e1]; [| eexists; reflexivity].
  destruct (unpack_dd _ 4) as [dw2|e2]; eexists; reflexivity.
Qed.

(** C4 (the code departs from it).  On a buffer that holds a valid dd
    encoding at offset 0 and another at offset 4, [unpack_dq] does not
    return [(high << 32) + low]: it raises [TypeError], because the two
    results of [unpack_dd] are [(value, size)] tuples and the first one is
    shifted as it is. *)
Theorem unpack_dq_two_valid_dd :
  forall (buf : bytes) (high low size1 size2 : Z),
    unpack_dd buf 0 = Ok (high, size1) ->
    unpack_dd buf 4 = Ok (low, size2) ->
    unpack_dq buf 0 = Raise TypeError
    /\ unpack_dq buf 0 <> Ok (PyInt (Z.shiftl high 32 + low)).
Proof.
  intros buf high low size1 size2 H1 H2.
  assert (E : unpack_dq buf 0 = Raise TypeError).
  { unfold unpack_dq. simpl. rewrite H1, H2. reflexivity. }
  split; [exact E | rewrite E; discriminate].
Qed.

Lemma unpack_dq_two_valid_dd_witness :
  unpack_dd [x01; x00; x00; x00; x02] 0 = Ok (1, 1) /\
  unpack_dd [x01; x00; x00; x00; x02] 4 = Ok (2, 1) /\
  unpack_dq [x01; x00; x00; x00; x02] 0 = Raise TypeError.
Proof.
  split; [reflexivity | split; [reflexivity |]].
  apply (proj1 (@unpack_dq_two_valid_dd [x01; x00; x00; x00; x02] 1 2 1 1
                  eq_refl eq_refl)).
Defined.

(** ** Index classification *)

(** C1, counterexample.  An index inside a segment whose top byte is 0xFF
    passes both the address test and the node test. *)
Lemma classes_overlap :
  _is_address high_segment_db 0xFF000010 = true /\
  _is_node high_segment_db 0xFF000010 = Ok true /\
  ~ exclusive_classes high_segment_db 0xFF000010.
Proof.
  split; [reflexivity | split; [reflexivity |]].
  intros [H _]. specialize (H eq_refl). discriminate H.
Qed.

(** C1, as the code has it.  With a word size of 4 or 8, the number test
    is the negation of the two others, so NUMBERS excludes ADDRESSES and
    NODES and every index passes at least one of the three filters; the
    address and node tests do not look at one another. *)
Theorem classification_total :
  forall (db : IDB) (index : Z),
    wordsize db = 4 \/ wordsize db = 8 ->
    exists a n : bool,
      nfilter db ADDRESSES index = Ok a /\
      nfilter db NODES index = Ok n /\
      nfilter db NUMBERS index = Ok (negb a && negb n) /\
      (a || n || (negb a && negb n) = true) /\
      (n = (if wordsize db =? 4
            then Z.land index 0xFF000000 =? 0xFF000000
            else Z.land index 0xFF00000000000000 =? 0xFF00000000000000)) /\
      (a = true <-> id1_get_segment db index <> None).
Proof.
  intros db index Hw. unfold nfilter, _is_number, _is_node, _is_address.
  destruct (id1_get_segment db index) as [seg|] eqn:Hseg; simpl.
  - destruct Hw as [-> | ->]; simpl;
      eexists; eexists; repeat split; try reflexivity; discriminate.
  - destruct Hw as [-> | ->]; simpl;
      eexists; eexists; repeat split; try reflexivity;
      try (destruct (_ =? _); reflexivity); try discriminate;
      intros H; contradiction.
Qed.

Lemma classification_total_witness :
  exists a n : bool,
    nfilter high_segment_db ADDRESSES 0x401000 = Ok a /\
    nfilter high_segment_db NODES 0x401000 = Ok n /\
    nfilter high_segment_db NUMBERS 0x401000 = Ok (negb a && negb n).
Proof.
  destruct (@classification_total high_segment_db 0x401000 (or_introl eq_refl))
    as (a & n & Ha & Hn & Hnum & _).
  exists a, n. repeat split; assumption.
Defined.

(** ** Function records *)

Lemma index_nth {A} (l : list A) (k : nat) (d : A) :
  (k < List.length l)%nat -> index l (Z.of_nat k) = Ok (nth k l d).
Proof.
  intros Hk. unfold index.
  destruct (Z.of_nat k <? 0) eqn:E; [apply Z.ltb_lt in E; lia |].
  rewrite E, Nat2Z.id.
  destruct (nth_error l k) eqn:Hn.
  - rewrite (nth_error_nth _ _ d Hn). reflexivity.
  - apply nth_error_None in Hn. lia.
Qed.

Lemma index_out {A} (l : list A) (k : nat) :
  (List.length l <= k)%nat -> index l (Z.of_nat k) = Raise IndexError.
Proof.
  intros Hk. unfold index.
  destruct (Z.of_nat k <? 0) eqn:E; [apply Z.ltb_lt in E; lia |].
  rewrite E, Nat2Z.id.
  apply nth_error_None in Hk. rewrite Hk. reflexivity.
Qed.

Example truncated_tail_values : get_values truncated_tail = Ok [0x10; 5; 0x8000].
Proof. reflexivity. Qed.

(** C2 (the code departs from it).  When FUNC_TAIL is set and the buffer
    ends before the owner delta and the reference count were both decoded,
    [get_values] tolerates it and returns fewer than five values, but
    [__init__] then reads [vals[3]] and [vals[4]] outside any [try]:
    construction raises [IndexError]. *)
Theorem func_t_tail_truncated_raises :
  forall (buf : bytes) (vals : list Z) (tail_flags : Z),
    get_values buf = Ok vals ->
    index vals 2 = Ok tail_flags ->
    is_flag_set tail_flags FUNC_TAIL = true ->
    (List.length vals < 5)%nat ->
    func_t_init buf = Raise IndexError.
Proof.
  intros buf vals tail_flags Hg H2 Hf Hlen.
  unfold func_t_init. rewrite Hg. cbn [bind].
  destruct vals as [|v0 [|v1 [|v2 rest]]]; try discriminate H2.
  simpl in H2. inversion H2; subst v2. clear H2.
  change (index (v0 :: v1 :: tail_flags :: rest) 0) with (Ok v0).
  change (index (v0 :: v1 :: tail_flags :: rest) 1) with (Ok v1).
  change (index (v0 :: v1 :: tail_flags :: rest) 2) with (Ok tail_flags).
  cbn [bind flags]. rewrite Hf. cbn [negb].
  destruct rest as [|v3 [|v4 rest]]; [reflexivity | reflexivity |].
  simpl in Hlen. lia.
Qed.

Lemma func_t_tail_truncated_raises_witness :
  func_t_init truncated_tail = Raise IndexError.
Proof.
  apply (@func_t_tail_truncated_raises truncated_tail [0x10; 5; 0x8000] 0x8000);
    [reflexivity | reflexivity | reflexivity | simpl; lia].
Defined.

(** C7, counterexample.  The fifth optional value, 7, ends up in [fpd];
    [color] stays [None]. *)
Lemma fifth_value_is_not_color :
  exists r, func_t_init full_record = Ok r /\
            vals r = [0x10; 5; 0; 1; 2; 3; 4; 7] /\
            is_flag_set (flags r) FUNC_TAIL = false /\
            fpd r = Some 7 /\
            color r <> Some 7.
Proof.
  eexists. split; [reflexivity |].
  repeat split; try reflexivity. discriminate.
Qed.

(** C7, as the code has it.  For a record without FUNC_TAIL whose buffer
    holds all five optional values, the fifth one (the [dw] after argsize)
    is stored in the [fpd] attribute, the four before it in [frame],
    [frsize], [frregs] and [argsize], and [color] is left absent. *)
Theorem func_t_fifth_value_stored_in_fpd :
  forall (buf : bytes) (vals : list Z),
    get_values buf = Ok vals ->
    List.length vals = 8%nat ->
    is_flag_set (nth 2 vals 0) FUNC_TAIL = false ->
    exists r,
      func_t_init buf = Ok r /\
      frame r = Some (nth 3 vals 0) /\
      frsize r = Some (nth 4 vals 0) /\
      frregs r = Some (nth 5 vals 0) /\
      argsize r = Some (nth 6 vals 0) /\
      fpd r = Some (nth 7 vals 0) /\
      color r = None /\ owner r = None /\ refqty r = None.
Proof.
  intros buf vals Hg Hlen Hf.
  unfold func_t_init. rewrite Hg. cbn [bind].
  destruct vals as [|v0 [|v1 [|v2 [|v3 [|v4 [|v5 [|v6 [|v7 [|v8 rest]]]]]]]]];
    try discriminate Hlen.
  simpl in Hf.
  change (index (v0 :: v1 :: v2 :: v3 :: v4 :: v5 :: v6 :: [v7]) 0) with (Ok v0).
  change (index (v0 :: v1 :: v2 :: v3 :: v4 :: v5 :: v6 :: [v7]) 1) with (Ok v1).
  change (index (v0 :: v1 :: v2 :: v3 :: v4 :: v5 :: v6 :: [v7]) 2) with (Ok v2).
  cbn [bind flags]. rewrite Hf. cbn [negb].
  eexists. split; [reflexivity |]. repeat split.
Qed.

Lemma func_t_fifth_value_stored_in_fpd_witness :
  exists r, func_t_init full_record = Ok r /\ fpd r = Some 7 /\ color r = None.
Proof.
  destruct (@func_t_fifth_value_stored_in_fpd full_record
              [0x10; 5; 0; 1; 2; 3; 4; 7] eq_refl eq_refl eq_refl)
    as (r & Hr & _ & _ & _ & _ & Hfpd & Hcolor & _).
  exists r. repeat split; assumption.
Defined.

(** Each [decode] either appends one value or leaves the locals as they
    were. *)
Lemma decode_grows (unpack : bytes -> Z -> result (Z * Z)) (buf : bytes)
  (st : Z * list Z) :
  (exists o v, decode unpack buf st = (Ok tt, (o, snd st ++ [v]))) \/
  (exists e, decode unpack buf st = (Raise e, st)).
Proof.
  destruct st as [offset vs]. unfold decode.
  destruct (unpack buf offset) as [[v size]|e]; [left | right]; eauto.
Qed.

(** [get_values] returns the three leading values and at most five more. *)
Lemma get_values_length (buf : bytes) (vals : list Z) :
  get_values buf = Ok vals -> (3 <= List.length vals <= 8)%nat.
Proof.
  unfold get_values, optional_values, seq_.
  repeat match goal with
         | |- context [decode ?u buf ?st] =>
             let H := fresh "H" in
             destruct (decode_grows u buf st) as [(? & ? & H) | (? & H)];
             rewrite H; clear H; cbn [snd fst]
         end; try discriminate.
  all: cbn [snd app].
  all: match goal with
       | |- context [index [?a; ?b; ?c] 2] =>
           change (index [a; b; c] 2) with (Ok c)
       end; cbv iota.
  all: destruct (is_flag_set _ FUNC_TAIL); cbn [negb snd];
    intros H; inversion H; subst; simpl; lia.
Qed.

(** Splits a list of three to eight values into its elements. *)
Ltac spine vals Hlen :=
  destruct vals as [|? [|? [|? [|? [|? [|? [|? [|? [|? ?]]]]]]]]];
  simpl in Hlen; try lia.

(** Truncation in the branch without FUNC_TAIL is tolerated: whatever
    [get_values] could decode, the record is built, with the three leading
    fields set. *)
Lemma func_t_non_tail_tolerates_truncation (buf : bytes) (vals : list Z) :
  get_values buf = Ok vals ->
  is_flag_set (nth 2 vals 0) FUNC_TAIL = false ->
  exists r, func_t_init buf = Ok r /\
            startEA r = nth 0 vals 0 /\
            endEA r = nth 0 vals 0 + nth 1 vals 0 /\
            flags r = nth 2 vals 0.
Proof.
  intros Hg Hf. pose proof (get_values_length _ Hg) as Hlen.
  unfold func_t_init. rewrite Hg. cbn [bind].
  spine vals Hlen; cbn [nth] in *;
    match goal with
    | |- context [index (?a :: ?b :: ?c :: ?l) 0] =>
        change (index (a :: b :: c :: l) 0) with (Ok a);
        change (index (a :: b :: c :: l) 1) with (Ok b);
        change (index (a :: b :: c :: l) 2) with (Ok c)
    end;
    cbn [bind flags]; rewrite Hf; cbn [negb];
    eexists; (split; [reflexivity | repeat split]).
Qed.

(** No record has its [color] set: [get_values] never decodes a ninth
    value. *)
Lemma func_t_color_absent (buf : bytes) (r : func_t) :
  func_t_init buf = Ok r -> color r = None.
Proof.
  unfold func_t_init.
  destruct (get_values buf) as [vals|e] eqn:Hg; [| discriminate].
  pose proof (get_values_length _ Hg) as Hlen. cbn [bind].
  spine vals Hlen;
    match goal with
    | |- context [index (?a :: ?b :: ?c :: ?l) 0] =>
        change (index (a :: b :: c :: l) 0) with (Ok a);
        change (index (a :: b :: c :: l) 1) with (Ok b);
        change (index (a :: b :: c :: l) 2) with (Ok c)
    end;
    cbn [bind flags];
    destruct (is_flag_set _ FUNC_TAIL); cbn [negb];
    intros H; inversion H; reflexivity.
Qed.

(** ** Generators *)

Lemma drive_produces {S A} (next : S -> step S A) s vs e :
  produces next s vs e ->
  forall fuel, (List.length vs < fuel)%nat -> drive next fuel s = (vs, ending e).
Proof.
  induction 1 as [s e Hn | s v s' vs e Hn Hp IH]; intros fuel Hfuel.
  - destruct fuel; [simpl in Hfuel; lia |]. simpl. rewrite Hn. reflexivity.
  - destruct fuel; [simpl in Hfuel; lia |]. simpl. rewrite Hn.
    rewrite IH by (simpl in Hfuel; lia). reflexivity.
Qed.

Lemma produces_deterministic {S A} (next : S -> step S A) s vs e :
  produces next s vs e ->
  forall vs' e', produces next s vs' e' -> vs' = vs /\ e' = e.
Proof.
  induction 1 as [s e Hn | s v s' vs e Hn Hp IH]; intros vs' e' H';
    inversion H'; subst; try congruence.
  - split; congruence.
  - assert (E : Yield v s' = Yield v0 s'0) by congruence.
    inversion E; subst. destruct (IH _ _ H0) as [-> ->]. split; reflexivity.
Qed.

(** The defining equation of the loop of [unpack_dds]. *)
Lemma unpack_dds_from_eq (buf : bytes) (offset : Z) :
  unpack_dds_from buf offset =
  if offset <? len buf then
    match unpack_dd buf offset with
    | Ok (val, size) =>
        (val :: fst (unpack_dds_from buf (offset + size)),
         snd (unpack_dds_from buf (offset + size)))
    | Raise e => ([], Some e)
    end
  else ([], None).
Proof.
  funelim (unpack_dds_from buf offset).
  - rewrite Hge. reflexivity.
  - rewrite Hlt, Hdd. reflexivity.
  - rewrite Hlt, Hdd. reflexivity.
Qed.

(** ** Chunking helpers *)

Lemma concat_groups {A} (n : nat) (xs : list A) :
  (0 < n)%nat -> concat (groups n xs) = xs.
Proof.
  intros Hn. funelim (groups n xs); try lia; simp groups; [reflexivity |].
  simpl. rewrite H by lia. rewrite firstn_skipn. reflexivity.
Qed.

(** Every group is full, except possibly the last one, and none is
    empty. *)
Lemma groups_shape {A} (n : nat) (xs : list A) :
  forall pre g post,
    groups n xs = pre ++ g :: post ->
    g <> [] /\ (List.length g <= n)%nat /\
    (post <> [] -> List.length g = n).
Proof.
  funelim (groups n xs); intros pre g post E; simp groups in E.
  - destruct pre; discriminate.
  - destruct pre; discriminate.
  - clear Heqcall. destruct pre as [|p pre]; simpl in E; inversion E; subst.
    + split; [discriminate |]. split.
      * simpl. rewrite length_firstn. lia.
      * intros Hpost. simpl. rewrite length_firstn.
        destruct (Nat.le_gt_cases m (List.length xs)) as [Hle | Hgt]; [lia |].
        exfalso. apply Hpost.
        rewrite skipn_all2 by lia. simp groups. reflexivity.
    + eapply H. eassumption.
Qed.

Lemma islice_finished {A} (n : nat) (xs : list A) :
  islice n (xs, None) = (Ok (firstn n xs), (skipn n xs, None)).
Proof.
  revert xs. induction n as [|n IH]; intros xs; [reflexivity |].
  destruct xs as [|x xs]; [reflexivity |].
  simpl. rewrite IH. reflexivity.
Qed.

(** A stop argument that [islice] accepts passes the test of
    [chunks_next]. *)
Lemma stop_accepted (n : Z) :
  0 <= n <= maxsize -> (n <? 0) || (maxsize <? n) = false.
Proof.
  intros Hn. apply orb_false_iff. split; apply Z.ltb_ge; lia.
Qed.

(** On a generator that ends normally, and for [0 < n <= sys.maxsize],
    [chunks] yields the consecutive groups and then ends. *)
Lemma chunks_of_generator {A} (n : nat) (xs : list A) :
  (0 < n)%nat -> Z.of_nat n <= maxsize ->
  produces (chunks_next (Z.of_nat n))
           (chunks (GeneratorType (xs, None))) (groups n xs) None.
Proof.
  intros Hn Hmax. simpl. funelim (groups n xs); try lia; simp groups.
  - apply produces_halt. unfold chunks_next.
    rewrite stop_accepted by lia.
    rewrite Nat2Z.id. reflexivity.
  - clear Heqcall. eapply produces_yield; [| apply H; lia].
    unfold chunks_next.
    rewrite stop_accepted by lia.
    rewrite Nat2Z.id, islice_finished. reflexivity.
Qed.

Lemma groups_length {A} (n : nat) (xs : list A) :
  (List.length (groups n xs) <= List.length xs)%nat.
Proof.
  funelim (groups n xs); simp groups; simpl; try lia.
  clear Heqcall. rewrite length_skipn in H. lia.
Qed.

Lemma chunks_of_generator_terminates {A} (n : nat) (xs : list A) :
  (0 < n)%nat -> Z.of_nat n <= maxsize ->
  drive (chunks_next (Z.of_nat n)) (S (List.length xs))
        (chunks (GeneratorType (xs, None)))
  = (groups n xs, Finished).
Proof.
  intros Hn Hmax. apply (drive_produces (chunks_of_generator xs Hn Hmax)).
  pose proof (groups_length n xs). lia.
Qed.

(** A stop argument that [islice] refuses: the first resumption raises
    [ValueError], whatever the generator holds. *)
Lemma chunks_of_generator_refused {A} (n : Z) (g : generator A) (fuel : nat) :
  n < 0 \/ maxsize < n ->
  drive (chunks_next n) (S fuel) (chunks (GeneratorType g))
  = ([], Raised ValueError).
Proof.
  intros Hn. cbn [drive chunks chunks_next].
  replace ((n <? 0) || (maxsize <? n)) with true; [reflexivity |].
  symmetry. apply orb_true_iff.
  destruct Hn as [Hn | Hn]; [left | right]; apply Z.ltb_lt; exact Hn.
Qed.

Lemma chunks_of_list_drive {A} (l : list A) (n : Z) (fuel : nat) :
  forall i,
    drive (chunks_next n) fuel (FromSequence l i)
    = (map (fun k => slice l (i + Z.of_nat k * n) (i + Z.of_nat k * n + n))
           (seq 0 fuel), Running).
Proof.
  induction fuel as [|fuel IH]; intros i; [reflexivity |].
  cbn [drive chunks_next getslice]. rewrite IH.
  cbn [seq map]. rewrite <- seq_shift, map_map.
  f_equal. f_equal.
  - f_equal; lia.
  - apply map_ext. intros k. f_equal; lia.
Qed.

(** C5 (the code departs from it).  On a materialized list the loop of
    [chunks] never ends: slicing does not raise [IndexError], so however
    often the generator is resumed it yields one more slice, and once the
    list is used up these slices are empty.  [pairs] is [chunks] with 2. *)
Theorem chunks_of_list_never_finishes :
  forall (A : Type) (l : list A) (n : Z) (fuel : nat),
    drive (chunks_next n) fuel (chunks (Sequence l))
    = (map (fun k => slice l (Z.of_nat k * n) (Z.of_nat k * n + n))
           (seq 0 fuel), Running)
    /\ drive (chunks_next 2) 4 (chunks (Sequence [1; 2; 3]))
       = ([[1; 2]; [3]; []; []], Running)
    /\ pairs_next = @chunks_next A 2.
Proof.
  intros A l n fuel. split; [| split; reflexivity].
  unfold chunks. rewrite chunks_of_list_drive. reflexivity.
Qed.

Example chunks_of_generator_example :
  drive (chunks_next 2) 4 (chunks (GeneratorType ([1; 2; 3], None)))
  = ([[1; 2]; [3]], Finished).
Proof. reflexivity. Qed.

(** ** Structure members *)

Lemma slice_length {A} (l : list A) (lo hi : Z) :
  0 <= lo <= hi -> hi <= len l ->
  List.length (slice l lo hi) = Z.to_nat (hi - lo).
Proof.
  intros Hlo Hhi. unfold slice, clamp.
  destruct (lo <? 0) eqn:E1; [apply Z.ltb_lt in E1; lia |].
  destruct (hi <? 0) eqn:E2; [apply Z.ltb_lt in E2; lia |].
  rewrite !Z.min_l by lia.
  rewrite length_firstn, length_skipn. unfold len in Hhi. lia.
Qed.

(** C6 (the code departs from it).  With 8-byte words and a well-formed
    member array that counts at least one member, [get_members] yields
    nothing: the first turn of the loop reads the local [nodeid_offset]
    before anything was assigned to it and raises [UnboundLocalError]. *)
Theorem get_members_8_byte_words_raises :
  forall (db : IDB) (structid : Z) (v : bytes) (vals : list Z)
         (header count : Z) (fuel : nat),
    wordsize db = 8 ->
    supval db structid "M"%char 0 = Ok v ->
    list_of (unpack_dds v) = Ok vals ->
    index vals 0 = Ok header ->
    truthy (Z.land header SF_FRAME) = true ->
    index vals 1 = Ok count ->
    1 <= count ->
    len vals = 2 + 8 * count ->
    drive (get_members_next db structid) (S fuel) MembersEntry
    = ([], Raised UnboundLocalError).
Proof.
  intros db structid v vals header count fuel Hw Hv Hvals H0 Hf H1 Hc Hlen.
  cbn [drive get_members_next]. rewrite Hv. cbn [bind].
  rewrite Hvals. cbn [bind]. rewrite H0. cbn [bind]. rewrite Hf. cbn [negb].
  rewrite H1. cbn [bind]. unfold members_loop.
  cbn [m_i m_count m_vals m_offset m_nodeid_offset].
  assert (E : (0 <? count) = true) by (apply Z.ltb_lt; lia).
  rewrite E, Hw. cbn [Z.eqb Pos.eqb].
  assert (Hs : List.length (slice vals 2 (2 + 8)) = 8%nat)
    by (rewrite slice_length by lia; reflexivity).
  revert Hs.
  destruct (slice vals 2 (2 + 8))
    as [|a0 [|a1 [|a2 [|a3 [|a4 [|a5 [|a6 [|a7 [|a8 rest]]]]]]]]];
    intros Hs; try discriminate Hs.
  reflexivity.
Qed.

Lemma get_members_8_byte_words_raises_witness :
  drive (get_members_next (one_member_db 8) 0xFF00000000000075) 1 MembersEntry
  = ([], Raised UnboundLocalError).
Proof.
  apply (@get_members_8_byte_words_raises (one_member_db 8) 0xFF00000000000075
           [x40; x01; x05; x00; x00; x00; x00; x00; x00; x00]
           [0x40; 1; 5; 0; 0; 0; 0; 0; 0; 0] 0x40 1 0%nat);
    try reflexivity; lia.
Defined.

(** The 4-byte-word loop on a well-formed array does what the 8-byte one
    was meant to do. *)
Example get_members_4_byte_words :
  drive (get_members_next
           (mkIDB 4 (fun _ => None)
                  (fun _ _ _ => Ok [x40; x01; x05; x00; x00; x00; x00])
                  (fun _ _ => exhausted) 0xFF000000)
           0xFF000075) 3 MembersEntry
  = ([mkStructMember 0xFF000005], Finished).
Proof. reflexivity. Qed.

(** ** Stack change points *)

(** A generator resumed from two states that take the same step produces
    the same values. *)
Lemma produces_same_step {S A} (next : S -> step S A) s1 s2 vs e :
  next s1 = next s2 -> produces next s2 vs e -> produces next s1 vs e.
Proof.
  intros E H. inversion H; subst.
  - apply produces_halt. congruence.
  - eapply produces_yield; [| eassumption]. congruence.
Qed.

Lemma change_points_length (ps : list (Z * Z)) :
  forall offset, List.length (change_points offset ps) = List.length ps.
Proof.
  induction ps as [|[d c] ps IH]; intros offset; simpl;
    [reflexivity | rewrite IH; reflexivity].
Qed.

Lemma low_bit (c : Z) : truthy (Z.land c 1) = Z.testbit c 0.
Proof.
  unfold truthy. change 1 with (Z.ones 1) at 1.
  rewrite Z.land_ones by lia. change (2 ^ 1) with 2.
  rewrite <- Z.bit0_mod. destruct (Z.testbit c 0); reflexivity.
Qed.

Lemma scp_loop_pair (offset delta c : Z) (rest : list Z) (e : option exn) :
  scp_loop offset (FromGenerator (delta :: c :: rest, e))
  = Yield (mkStackChangePoint
             (offset + delta)
             (if truthy (Z.land c 1) then Z.shiftr c 1 else - Z.shiftr c 1))
          (ScpLoop (offset + delta) (FromGenerator (rest, e))).
Proof. reflexivity. Qed.

Lemma scp_loop_produces (db : IDB) (fva : Z) (ps : list (Z * Z)) :
  forall offset,
    produces (get_stack_change_points_next db fva)
             (ScpLoop offset (FromGenerator (flatten ps, None)))
             (change_points offset ps) None.
Proof.
  induction ps as [|[delta c] ps IH]; intros offset.
  - apply produces_halt. reflexivity.
  - eapply produces_yield; [| apply IH].
    cbn [get_stack_change_points_next flatten].
    rewrite scp_loop_pair, low_bit. reflexivity.
Qed.

(** C8.  When the array at tag S, index 0x1000 decodes to a sequence of
    (delta, encoded change) pairs, [get_stack_change_points] yields one
    point per pair and then ends; the offsets start from the function's
    start address and accumulate the deltas; the change is
    [encoded_change >> 1] when the low bit of the encoded change is set and
    [-(encoded_change >> 1)] otherwise.  Encoded 7 gives +3 and encoded 6
    gives -3. *)
Theorem get_stack_change_points_decodes :
  forall (db : IDB) (fva : Z) (v : bytes) (ps : list (Z * Z)) (fuel : nat),
    supval db fva "S"%char 0x1000 = Ok v ->
    unpack_dds v = (flatten ps, None) ->
    (List.length ps < fuel)%nat ->
    drive (get_stack_change_points_next db fva) fuel ScpEntry
    = (change_points fva ps, Finished)
    /\ (forall offset delta rest e,
          scp_loop offset (pairs (GeneratorType (delta :: 7 :: rest, e)))
          = Yield (mkStackChangePoint (offset + delta) 3)
                  (ScpLoop (offset + delta) (FromGenerator (rest, e))))
    /\ (forall offset delta rest e,
          scp_loop offset (pairs (GeneratorType (delta :: 6 :: rest, e)))
          = Yield (mkStackChangePoint (offset + delta) (-3))
                  (ScpLoop (offset + delta) (FromGenerator (rest, e)))).
Proof.
  intros db fva v ps fuel Hv Hdds Hfuel.
  split; [| split; reflexivity].
  assert (Hp : produces (get_stack_change_points_next db fva) ScpEntry
                        (change_points fva ps) None).
  { apply produces_same_step
      with (s2 := ScpLoop fva (FromGenerator (flatten ps, None))).
    - cbn [get_stack_change_points_next]. rewrite Hv, Hdds. reflexivity.
    - apply scp_loop_produces. }
  apply (drive_produces Hp).
  rewrite change_points_length. exact Hfuel.
Qed.

Lemma get_stack_change_points_decodes_witness :
  drive (get_stack_change_points_next two_points_db 0x401000) 3 ScpEntry
  = ([mkStackChangePoint 0x401004 3; mkStackChangePoint 0x40100C (-3)], Finished).
Proof.
  apply (proj1 (@get_stack_change_points_decodes two_points_db 0x401000
                  [x04; x07; x08; x06] [(4, 7); (8, 6)] 3
                  eq_refl eq_refl (le_n 3))).
Defined.

(** A buffer with an odd number of values does not make a pair sequence:
    the last chunk has one element and unpacking it raises. *)
Example get_stack_change_points_odd :
  drive (get_stack_change_points_next
           (mkIDB 4 (fun _ => None) (fun _ _ _ => Ok [x04; x07; x08])
                  (fun _ _ => exhausted) 0xFF000000) 0x401000) 3 ScpEntry
  = ([mkStackChangePoint 0x401004 3], Raised ValueError).
Proof. reflexivity. Qed.

(** ** Cross references *)

Lemma passes_test (types : option (list Z)) (entry : Entry) :
  (nonempty types && contains types (value entry)) || negb (nonempty types)
  = passes types entry.
Proof.
  destruct types as [[|t ts]|]; try reflexivity.
  cbn [nonempty is_empty negb contains passes andb]. apply orb_false_r.
Qed.

Lemma xrefs_loop_produces (db : IDB) (tag : ascii) (src dst : option Z)
  (types : option (list Z)) (ea : Z) (e : option exn) (entries : list Entry) :
  (if given src then src else dst) = Some ea ->
  e = None \/ e = Some KeyError ->
  produces (_get_xrefs_next db tag src dst types)
           (XrefsLoop (entries, e))
           (map (xref_of src dst ea) (filter (passes types) entries)) None.
Proof.
  intros Hea He. induction entries as [|entry rest IH].
  - apply produces_halt. destruct He as [-> | ->]; reflexivity.
  - cbn [filter]. destruct (passes types entry) eqn:Hp.
    + eapply produces_yield; [| exact IH].
      cbn [_get_xrefs_next xrefs_loop map]. rewrite passes_test, Hp, Hea.
      unfold xref_of, xref_from, xref_to. destruct (given src); reflexivity.
    + eapply produces_same_step; [| exact IH].
      cbn [_get_xrefs_next xrefs_loop]. rewrite passes_test, Hp. reflexivity.
Qed.

Lemma filter_length_le {A} (f : A -> bool) (l : list A) :
  (List.length (filter f l) <= List.length l)%nat.
Proof.
  induction l as [|a l IH]; simpl; [lia |]. destruct (f a); simpl; lia.
Qed.

Lemma given_nonzero (ea : Z) : ea <> 0 -> given (Some ea) = true.
Proof.
  intros Hnz. unfold given, truthy.
  destruct (ea =? 0) eqn:E; [apply Z.eqb_eq in E; contradiction | reflexivity].
Qed.

Lemma get_xrefs_entry (db : IDB) (tag : ascii) (src dst : option Z)
  (types : option (list Z)) (ea : Z) :
  (if given src then src else dst) = Some ea -> ea <> 0 ->
  _get_xrefs_next db tag src dst types XrefsEntry
  = _get_xrefs_next db tag src dst types (XrefsLoop (charentries db ea tag)).
Proof.
  intros Hea Hnz. pose proof (given_nonzero Hnz) as Hg.
  cbn [_get_xrefs_next]. unfold or_.
  destruct (given src) eqn:Hs; cbn [negb andb].
  - rewrite Hea. destruct (charentries db ea tag). reflexivity.
  - rewrite Hea in *. rewrite Hg. cbn [negb].
    destruct (charentries db ea tag). reflexivity.
Qed.

(** An empty collection of type codes lets every entry through. *)
Lemma filter_passes_empty (entries : list Entry) :
  filter (passes (Some [])) entries = entries.
Proof.
  induction entries as [|entry rest IH]; [reflexivity |].
  cbn [filter passes]. rewrite IH. reflexivity.
Qed.

(** The query [get_crefs_from(db, 0x401000, types=[])] on a node with one
    entry: the entry of type 17, which is not in the empty collection, is
    yielded all the same. *)
Example empty_types_yield_all :
  drive (_get_xrefs_next one_entry_db "x"%char (Some 0x401000) None (Some []))
        2 XrefsEntry
  = ([mkXref 0x401000 0x402000 17], Finished)
  /\ contains (Some []) 17 = false.
Proof. split; reflexivity. Qed.

(** The shared routine as the code has it, for every value of [types]
    (the empty collection, on which C9 fails, is taken up below).  Resumed with neither [src] nor [dst] given,
    the shared routine raises [ValueError].  With one of them given, and a
    node whose enumeration ends normally or with [KeyError], it yields the
    references of the entries that pass the filter, in order, and then
    ends, so a node without entries gives the empty sequence.  The filter
    keeps the entries whose type code is in [types] when [types] is a
    non-empty collection, and every entry when [types] is absent or
    empty. *)
Theorem get_xrefs_contract :
  forall (db : IDB) (tag : ascii) (src dst : option Z) (types : option (list Z))
         (fuel : nat),
    (given src = false -> given dst = false ->
     drive (_get_xrefs_next db tag src dst types) (S fuel) XrefsEntry
     = ([], Raised ValueError))
    /\
    (forall ea entries e,
       (if given src then src else dst) = Some ea ->
       ea <> 0 ->
       charentries db ea tag = (entries, e) ->
       e = None \/ e = Some KeyError ->
       (List.length entries < fuel)%nat ->
       drive (_get_xrefs_next db tag src dst types) fuel XrefsEntry
       = (map (xref_of src dst ea) (filter (passes types) entries), Finished)
       /\ (entries = [] ->
           drive (_get_xrefs_next db tag src dst types) fuel XrefsEntry
           = ([], Finished))
       /\ (forall x, In x (filter (passes types) entries) <->
             In x entries /\
             match types with
             | Some (t :: ts) => In (value x) (t :: ts)
             | _ => True
             end)).
Proof.
  intros db tag src dst types fuel. split.
  - intros Hs Hd. cbn [drive _get_xrefs_next]. rewrite Hs, Hd. reflexivity.
  - intros ea entries e Hea Hnz Hc He Hfuel.
    assert (Hg : given (Some ea) = true).
    { unfold given, truthy. destruct (ea =? 0) eqn:E; [| reflexivity].
      apply Z.eqb_eq in E. contradiction. }
    assert (Hentry : _get_xrefs_next db tag src dst types XrefsEntry
                     = _get_xrefs_next db tag src dst types (XrefsLoop (entries, e))).
    { cbn [_get_xrefs_next]. unfold or_.
      destruct (given src) eqn:Hs; cbn [negb andb].
      - rewrite Hea, Hc. reflexivity.
      - rewrite Hea in *. rewrite Hg. cbn [negb]. rewrite Hc. reflexivity. }
    assert (Hrun : drive (_get_xrefs_next db tag src dst types) fuel XrefsEntry
                   = (map (xref_of src dst ea) (filter (passes types) entries),
                      Finished)).
    { apply (@drive_produces _ _ _ _ _ None).
      - eapply produces_same_step; [exact Hentry |].
        apply xrefs_loop_produces; assumption.
      - rewrite length_map. pose proof (filter_length_le (passes types) entries). lia. }
    split; [exact Hrun | split].
    + intros ->. exact Hrun.
    + intros x. rewrite filter_In. unfold passes.
      destruct types as [[|t ts]|]; try (intuition congruence).
      rewrite existsb_exists. split.
      * intros [Hin (y & Hy & Hyx)]. apply Z.eqb_eq in Hyx. subst y. auto.
      * intros [Hin Hv]. split; [exact Hin |].
        exists (value x). split; [exact Hv | apply Z.eqb_refl].
Qed.

Lemma get_xrefs_contract_witness :
  drive (_get_xrefs_next one_entry_db "X"%char None (Some 0x401000) (Some [16; 17]))
        2 XrefsEntry
  = ([mkXref 0x402000 0x401000 17], Finished).
Proof.
  apply (proj1 (proj2 (@get_xrefs_contract one_entry_db "X"%char None
                         (Some 0x401000) (Some [16; 17]) 2)
                 0x401000 [mkEntry 0x402000 17] None eq_refl
                 ltac:(discriminate) eq_refl (or_introl eq_refl) (le_n 2))).
Defined.

(** C9, where the code departs from it.  The four queries document
    [types] as "if provided, a whitelist collection of xref types to
    include", and C9 says that only entries whose type code is in a
    supplied collection are yielded.  With the empty collection supplied,
    no type code is in it, yet the routine yields a reference for every
    entry of the node, in order: the test [not types] takes the empty
    collection for an absent one. *)
Theorem get_xrefs_empty_whitelist :
  forall (db : IDB) (tag : ascii) (src dst : option Z) (fuel : nat)
         (ea : Z) (entries : list Entry) (e : option exn),
    (if given src then src else dst) = Some ea ->
    ea <> 0 ->
    charentries db ea tag = (entries, e) ->
    e = None \/ e = Some KeyError ->
    (List.length entries < fuel)%nat ->
    drive (_get_xrefs_next db tag src dst (Some [])) fuel XrefsEntry
    = (map (xref_of src dst ea) entries, Finished)
    /\ (forall v, contains (Some []) v = false).
Proof.
  intros db tag src dst fuel ea entries e Hea Hnz Hc He Hfuel.
  split; [| intros v; reflexivity].
  apply (@drive_produces _ _ _ _ _ None).
  - eapply produces_same_step; [apply get_xrefs_entry; eassumption |].
    rewrite Hc. rewrite <- (filter_passes_empty entries) at 2.
    apply xrefs_loop_produces; assumption.
  - rewrite length_map. exact Hfuel.
Qed.

Lemma get_xrefs_empty_whitelist_witness :
  drive (get_crefs_from_next one_entry_db 0x401000 (Some [])) 2 XrefsEntry
  = ([mkXref 0x401000 0x402000 17], Finished)
  /\ contains (Some []) 17 = false.
Proof.
  split.
  - apply (proj1 (@get_xrefs_empty_whitelist one_entry_db "x"%char
                    (Some 0x401000) None 2 0x401000 [mkEntry 0x402000 17] None
                    eq_refl ltac:(discriminate) eq_refl (or_introl eq_refl)
                    (le_n 2))).
  - apply (proj2 (@get_xrefs_empty_whitelist one_entry_db "x"%char
                    (Some 0x401000) None 2 0x401000 [mkEntry 0x402000 17] None
                    eq_refl ltac:(discriminate) eq_refl (or_introl eq_refl)
                    (le_n 2)) 17).
Defined.

(** C10.  Each of the four queries, called with effective address 0,
    raises the [ValueError] that supplying no address at all raises: the
    presence test takes the number 0 for an absent argument. *)
Theorem xrefs_at_address_zero :
  forall (db : IDB) (types : option (list Z)) (fuel : nat),
    drive (get_crefs_to_next db 0 types) (S fuel) XrefsEntry
    = ([], Raised ValueError)
    /\ drive (get_crefs_from_next db 0 types) (S fuel) XrefsEntry
       = ([], Raised ValueError)
    /\ drive (get_drefs_to_next db 0 types) (S fuel) XrefsEntry
       = ([], Raised ValueError)
    /\ drive (get_drefs_from_next db 0 types) (S fuel) XrefsEntry
       = ([], Raised ValueError)
    /\ (forall tag,
          drive (_get_xrefs_next db tag None None types) (S fuel) XrefsEntry
          = ([], Raised ValueError)).
Proof.
  intros db types fuel. repeat split; reflexivity.
Qed.

(** * Further properties *)

(** ** Packed integer codec, continued *)

Lemma byte_at_ok (buf : bytes) (i x : Z) :
  0 <= i -> byte_at buf i = Ok x -> i < len buf /\ 0 <= x < 256.
Proof.
  intros Hi. unfold byte_at, index.
  destruct (i <? 0) eqn:E; [apply Z.ltb_lt in E; lia |]. rewrite E.
  destruct (nth_error buf (Z.to_nat i)) as [b|] eqn:Hn; [| discriminate].
  cbn [bind]. intros H. inversion H; subst. split; [| apply byte_val_range].
  assert (Hlt : (Z.to_nat i < List.length buf)%nat)
    by (apply nth_error_Some; congruence).
  unfold len. lia.
Qed.

Lemma byte_at_in (buf : bytes) (i : Z) :
  0 <= i < len buf -> exists x, byte_at buf i = Ok x.
Proof.
  intros Hi. unfold byte_at, index.
  destruct (i <? 0) eqn:E; [apply Z.ltb_lt in E; lia |]. rewrite E.
  destruct (nth_error buf (Z.to_nat i)) as [b|] eqn:Hn.
  - eexists. reflexivity.
  - apply nth_error_None in Hn. unfold len in Hi. lia.
Qed.

Lemma byte_at_out (buf : bytes) (i : Z) :
  len buf <= i -> byte_at buf i = Raise IndexError.
Proof.
  intros Hi. pose proof (len_nonneg buf). unfold byte_at, index.
  destruct (i <? 0) eqn:E; [apply Z.ltb_lt in E; lia |]. rewrite E.
  destruct (nth_error buf (Z.to_nat i)) as [b|] eqn:Hn; [| reflexivity].
  assert (Hlt : (Z.to_nat i < List.length buf)%nat)
    by (apply nth_error_Some; congruence).
  unfold len in Hi. lia.
Qed.

Lemma masks_range (h : Z) :
  0 <= h < 256 ->
  0 <= Z.land h 0x7F < 128 /\ 0 <= Z.land h 0x3F < 64.
Proof.
  intros Hh.
  change 0x7F with (Z.ones 7). change 0x3F with (Z.ones 6).
  rewrite !Z.land_ones by lia.
  split; apply Z.mod_pos_bound; reflexivity.
Qed.

(** What a successful [unpack_dd] returned. *)
Lemma unpack_dd_decoded :
  forall (buf : bytes) (offset v n : Z),
    unpack_dd buf offset = Ok (v, n) ->
    0 <= v < 2 ^ 32 /\
    (n = 1 \/ n = 2 \/ n = 4 \/ n = 5) /\
    n <= len (seek buf offset).
Proof.
  intros buf offset v n. unfold unpack_dd. cbv zeta.
  change (if negb (offset =? 0) then slice_from buf offset else buf)
    with (seek buf offset).
  generalize (seek buf offset). clear buf offset. intros buf.
  destruct (byte_at buf 0) as [h|] eqn:H0; [| discriminate]. cbn [bind].
  destruct (byte_at_ok buf (Z.le_refl 0) H0) as [L0 R0].
  pose proof (masks_range R0) as [M7 M6].
  repeat match goal with
         | |- (if ?c then _ else _) = _ -> _ => destruct c
         | |- bind (byte_at buf ?i) _ = _ -> _ =>
             let x := fresh "b" in
             let Hb := fresh "Hb" in
             destruct (byte_at buf i) as [x|] eqn:Hb; [| discriminate];
             cbn [bind];
             apply byte_at_ok in Hb; [| lia]
         end;
    rewrite ?Z.shiftl_mul_pow2 by lia;
    change (2 ^ 8) with 256; change (2 ^ 16) with 65536;
    change (2 ^ 32) with 4294967296;
    intros [= <- <-];
    repeat split; try lia; auto.
Qed.

(** X1.  Whatever [unpack_dd] returns is a 32-bit value, and the bytes it
    reports as consumed, 1, 2, 4 or 5 of them, all lie inside the part of
    the buffer that starts at the offset. *)
Theorem unpack_dd_range :
  forall (buf : bytes) (offset v n : Z),
    unpack_dd buf offset = Ok (v, n) ->
    0 <= v < 2 ^ 32 /\
    (n = 1 \/ n = 2 \/ n = 4 \/ n = 5) /\
    n <= len (seek buf offset).
Proof.
  intros buf offset v n Hdd.
  destruct (unpack_dd_decoded _ _ Hdd) as (Hv & Hn & Hlen).
  split; [exact Hv | split; [exact Hn | exact Hlen]].
Qed.

Lemma unpack_dd_range_witness :
  0 <= 0x81020304 < 2 ^ 32 /\ 5 <= len (seek [x00; xe0; x81; x02; x03; x04] 1).
Proof.
  destruct (@unpack_dd_range [x00; xe0; x81; x02; x03; x04] 1 0x81020304 5 eq_refl)
    as (Hv & _ & Hn).
  split; assumption.
Defined.

Lemma unpack_dd_seek (buf : bytes) (offset : Z) :
  unpack_dd buf offset = unpack_dd (seek buf offset) 0.
Proof. reflexivity. Qed.

Ltac read_bytes :=
  repeat match goal with
         | |- context [byte_at ?l ?i] =>
             first [ rewrite (@byte_at_out l i) by lia
                   | let x := fresh "x" in
                     let H := fresh "H" in
                     destruct (@byte_at_in l i) as [x H]; [lia |];
                     rewrite H
                   | let H := fresh "H" in
                     destruct (Z.lt_ge_cases i (len l)) as [H | H] ];
             cbn [bind]
         end.

(** When [unpack_dd] fails and when it does not, by the bytes that are
    left. *)
Lemma unpack_dd_cut :
  forall (buf : bytes) (offset : Z),
    (seek buf offset = [] -> unpack_dd buf offset = Raise IndexError) /\
    (forall h t, seek buf offset = h :: t ->
       (dd_width (byte_val h) <= len (h :: t) ->
        exists v, unpack_dd buf offset = Ok (v, dd_width (byte_val h))) /\
       (len (h :: t) < dd_width (byte_val h) ->
        unpack_dd buf offset = Raise IndexError)).
Proof.
  intros buf offset. rewrite unpack_dd_seek.
  generalize (seek buf offset). clear. intros s. split.
  - intros ->. reflexivity.
  - intros h t ->. unfold unpack_dd, dd_width. cbv zeta.
    change (if negb (0 =? 0) then slice_from (h :: t) 0 else h :: t) with (h :: t).
    change (byte_at (h :: t) 0) with (Ok (byte_val h)). cbn [bind].
    pose proof (len_nonneg t). rewrite len_cons.
    destruct (Z.land (byte_val h) 0x80 =? 0);
      [| destruct (Z.land (byte_val h) 0xC0 =? 0xC0); cbn [negb];
         [destruct (Z.land (byte_val h) 0xE0 =? 0xE0) |]];
      (split; intros Hlen;
       [ pose proof (len_cons h t); read_bytes; eexists; reflexivity
       | try lia; pose proof (len_cons h t); read_bytes; reflexivity ]).
Qed.

(** X2.  [unpack_dd] fails exactly when the buffer ends before the
    encoding does: on an empty rest, or when fewer bytes are left than the
    leading byte announces.  The failure is [IndexError] (not the
    [KeyError] of the docstring); otherwise the announced width is
    consumed. *)
Theorem unpack_dd_truncation :
  forall (buf : bytes) (offset : Z),
    (seek buf offset = [] -> unpack_dd buf offset = Raise IndexError) /\
    (forall h t, seek buf offset = h :: t ->
       (dd_width (byte_val h) <= len (h :: t) ->
        exists v, unpack_dd buf offset = Ok (v, dd_width (byte_val h))) /\
       (len (h :: t) < dd_width (byte_val h) ->
        unpack_dd buf offset = Raise IndexError)).
Proof.
  intros buf offset. destruct (unpack_dd_cut buf offset) as [Hnil Hcons].
  split; [exact Hnil |]. intros h t Hs. exact (Hcons h t Hs).
Qed.

Lemma unpack_dd_truncation_witness :
  unpack_dd [x05; xe0; x81; x02] 1 = Raise IndexError.
Proof.
  apply (proj2 (proj2 (unpack_dd_truncation [x05; xe0; x81; x02] 1)
                  xe0 [x81; x02] eq_refl)).
  vm_compute. reflexivity.
Defined.

Lemma byte_at_byte (buf : bytes) (i x : Z) :
  byte_at buf i = Ok x -> exists b, x = byte_val b.
Proof.
  unfold byte_at. destruct (index buf i) as [b|]; [| discriminate].
  cbn [bind]. intros [= <-]. exists b. reflexivity.
Qed.

(** A leading byte whose top bits are 10 lies in [0x80, 0xC0). *)
Lemma top_bits_10 (b : byte) :
  (Z.land (byte_val b) 0x80 =? 0) = false ->
  (Z.land (byte_val b) 0xC0 =? 0xC0) = false ->
  0x80 <= byte_val b < 0xC0.
Proof.
  destruct b; vm_compute; intros; try discriminate; split; congruence.
Qed.

Lemma high_bit_clear (v : Z) : 0 <= v < 0x8000 -> Z.land v 0x8000 = 0.
Proof.
  intros Hv. rewrite <- (Z.mod_small v (2 ^ 15)) by (change (2 ^ 15) with 0x8000; lia).
  rewrite <- Z.land_ones by lia. rewrite <- Z.land_assoc.
  change (Z.land (Z.ones 15) 0x8000) with 0. apply Z.land_0_r.
Qed.

(** X3.  [unpack_dw] returns a value below 0x80 from one byte, below
    0x4000 from two bytes and below 0x10000 from three bytes, never reading
    past the buffer.  So a flags word with FUNC_TAIL (0x8000) set can only
    come from the three-byte form. *)
Theorem unpack_dw_range :
  forall (buf : bytes) (offset v n : Z),
    unpack_dw buf offset = Ok (v, n) ->
    ((n = 1 /\ 0 <= v < 0x80) \/ (n = 2 /\ 0 <= v < 0x4000) \/
     (n = 3 /\ 0 <= v < 0x10000)) /\
    n <= len (seek buf offset) /\
    (is_flag_set v FUNC_TAIL = true -> n = 3).
Proof.
  intros buf offset v n Hdw.
  assert (Hmain : ((n = 1 /\ 0 <= v < 0x80) \/ (n = 2 /\ 0 <= v < 0x4000) \/
                   (n = 3 /\ 0 <= v < 0x10000)) /\ n <= len (seek buf offset)).
  { revert Hdw. unfold unpack_dw. cbv zeta.
    change (if negb (offset =? 0) then slice_from buf offset else buf)
      with (seek buf offset).
    generalize (seek buf offset). clear buf offset. intros buf.
    destruct (byte_at buf 0) as [h|] eqn:H0; [| discriminate]. cbn [bind].
    destruct (byte_at_byte _ _ H0) as [hb ->].
    destruct (byte_at_ok buf (Z.le_refl 0) H0) as [L0 R0].
    destruct (Z.land (byte_val hb) 0x80 =? 0) eqn:E1.
    - intros [= <- <-]. split; [| lia]. left. split; [reflexivity |].
      apply Z.eqb_eq in E1. revert E1. clear.
      destruct hb; vm_compute; intros; try discriminate; split; congruence.
    - destruct (Z.land (byte_val hb) 0xC0 =? 0xC0) eqn:E2; cbn [negb].
      + destruct (byte_at buf 1) as [b1|] eqn:H1; [| discriminate]. cbn [bind].
        destruct (byte_at buf 2) as [b2|] eqn:H2; [| discriminate]. cbn [bind].
        apply byte_at_ok in H1; [| lia]. apply byte_at_ok in H2; [| lia].
        rewrite Z.shiftl_mul_pow2 by lia. change (2 ^ 8) with 256.
        intros [= <- <-]. split; [| lia]. right. right. lia.
      + destruct (byte_at buf 1) as [b1|] eqn:H1; [| discriminate]. cbn [bind].
        apply byte_at_ok in H1; [| lia].
        pose proof (top_bits_10 hb E1 E2) as Hh.
        change 0x7FFF with (Z.ones 15). rewrite Z.land_ones by lia.
        rewrite Z.shiftl_mul_pow2 by lia.
        change (2 ^ 8) with 256. change (2 ^ 15) with 32768.
        intros [= <- <-]. split; [| lia]. right. left.
        split; [reflexivity |].
        replace (byte_val hb * 256 + b1)
          with ((byte_val hb * 256 + b1 - 32768) + 1 * 32768) by lia.
        rewrite Z.mod_add by lia. rewrite Z.mod_small; lia. }
  destruct Hmain as [Hcases Hlen]. split; [exact Hcases |]. split; [exact Hlen |].
  unfold is_flag_set, FUNC_TAIL. intros Hf. apply Z.eqb_eq in Hf.
  destruct Hcases as [[-> Hv] | [[-> Hv] | [-> _]]]; [| | reflexivity];
    rewrite high_bit_clear in Hf by lia; discriminate.
Qed.

Lemma unpack_dw_range_witness :
  is_flag_set 0x8000 FUNC_TAIL = true /\ 3 <= len (seek truncated_tail 2).
Proof.
  destruct (@unpack_dw_range truncated_tail 2 0x8000 3 eq_refl) as (_ & Hn & _).
  split; [reflexivity | exact Hn].
Defined.

(** X4.  On an encoding whose leading byte does not have its two top bits
    set, that is on the one-byte and two-byte forms, [unpack_dw] and
    [unpack_dd] return the same value and size, and fail alike. *)
Theorem unpack_dw_agrees_with_unpack_dd :
  forall (buf : bytes) (offset header : Z),
    byte_at (seek buf offset) 0 = Ok header ->
    Z.land header 0xC0 <> 0xC0 ->
    unpack_dw buf offset = unpack_dd buf offset.
Proof.
  intros buf offset header H0 Hbits.
  unfold unpack_dw, unpack_dd. cbv zeta.
  change (if negb (offset =? 0) then slice_from buf offset else buf)
    with (seek buf offset).
  rewrite H0. cbn [bind].
  destruct (byte_at_byte _ _ H0) as [hb ->].
  destruct (Z.land (byte_val hb) 0x80 =? 0) eqn:E1; [reflexivity |].
  destruct (Z.land (byte_val hb) 0xC0 =? 0xC0) eqn:E2;
    [apply Z.eqb_eq in E2; contradiction |]. cbn [negb].
  destruct (byte_at (seek buf offset) 1) as [b1|] eqn:H1; [| reflexivity].
  cbn [bind]. apply byte_at_ok in H1; [| lia].
  pose proof (top_bits_10 hb E1 E2) as Hh.
  f_equal. f_equal.
  change 0x7FFF with (Z.ones 15). change 0x7F with (Z.ones 7).
  rewrite !Z.land_ones by lia. rewrite !Z.shiftl_mul_pow2 by lia.
  change (2 ^ 8) with 256. change (2 ^ 15) with 32768. change (2 ^ 7) with 128.
  replace (byte_val hb * 256 + b1)
    with ((byte_val hb * 256 + b1 - 32768) + 1 * 32768) by lia.
  rewrite Z.mod_add by lia. rewrite (Z.mod_small (_ - 32768)) by lia.
  replace (byte_val hb) with ((byte_val hb - 128) + 1 * 128) at 2 by lia.
  rewrite Z.mod_add by lia. rewrite Z.mod_small by lia. lia.
Qed.

Lemma unpack_dw_agrees_with_unpack_dd_witness :
  unpack_dw [x05; xbf; xff] 1 = unpack_dd [x05; xbf; xff] 1.
Proof.
  apply (@unpack_dw_agrees_with_unpack_dd [x05; xbf; xff] 1 0xBF eq_refl).
  vm_compute. discriminate.
Defined.

(** ** Sequences of packed values *)

Lemma unpack_dd_app (pre rest : bytes) :
  unpack_dd (pre ++ rest) (len pre) = unpack_dd rest 0.
Proof.
  rewrite (unpack_dd_seek (pre ++ rest)). unfold seek.
  rewrite at_offset_app. reflexivity.
Qed.

(** Decoding from an offset only looks at the bytes from that offset on. *)
Lemma unpack_dds_from_app (rest : bytes) :
  forall pre, unpack_dds_from (pre ++ rest) (len pre) = unpack_dds rest.
Proof.
  remember (List.length rest) as k eqn:Hk. revert rest Hk.
  induction k as [k IH] using lt_wf_ind. intros rest Hk pre.
  unfold unpack_dds.
  rewrite (unpack_dds_from_eq (pre ++ rest)), (unpack_dds_from_eq rest).
  rewrite len_app, unpack_dd_app.
  pose proof (len_nonneg rest) as Hr.
  destruct rest as [|b rest'].
  { replace (len pre <? len pre + len []) with false
      by (symmetry; apply Z.ltb_ge; change (len (@nil byte)) with 0; lia).
    reflexivity. }
  remember (b :: rest') as rest eqn:Hrest.
  assert (Hpos : 0 < len rest)
    by (subst rest; rewrite len_cons; pose proof (len_nonneg rest'); lia).
  replace (len pre <? len pre + len rest) with true by (symmetry; apply Z.ltb_lt; lia).
  replace (0 <? len rest) with true by (symmetry; apply Z.ltb_lt; lia).
  destruct (unpack_dd rest 0) as [[val size]|e] eqn:Hdd; [| reflexivity].
  destruct (unpack_dd_decoded _ _ Hdd) as (_ & Hsize & Hlen).
  change (seek rest 0) with rest in Hlen.
  remember (firstn (Z.to_nat size) rest) as enc eqn:Henc.
  remember (skipn (Z.to_nat size) rest) as tl eqn:Htl.
  assert (Hsplit : rest = enc ++ tl)
    by (subst enc tl; symmetry; apply firstn_skipn).
  assert (Hl1 : len enc = size).
  { subst enc. unfold len in *. rewrite length_firstn. lia. }
  assert (Hl2 : (List.length tl < k)%nat).
  { subst tl. rewrite length_skipn. subst k. unfold len in *. lia. }
  clear Hdd Henc Htl Hrest. subst rest.
  rewrite app_assoc.
  replace (len pre + size) with (len (pre ++ enc)) by (rewrite len_app; lia).
  replace (0 + size) with (len enc) by lia.
  rewrite (IH _ Hl2 _ eq_refl (pre ++ enc)).
  rewrite (IH _ Hl2 _ eq_refl enc).
  reflexivity.
Qed.

Lemma unpack_dds_cons (enc rest : bytes) (v : Z) :
  dd_valid enc -> dd_documented enc = Some v ->
  unpack_dds (enc ++ rest) = (v :: fst (unpack_dds rest), snd (unpack_dds rest)).
Proof.
  intros Hvalid Hdoc.
  destruct (@unpack_dd_at [] enc rest Hvalid) as (v' & Hdoc' & Hdd).
  assert (v' = v) by congruence. subst v'.
  change (len (@nil byte)) with 0 in Hdd. cbn [app] in Hdd.
  unfold unpack_dds at 1. rewrite unpack_dds_from_eq, Hdd.
  assert (Hpos : 0 < len enc).
  { destruct enc; [contradiction |]. rewrite len_cons. pose proof (len_nonneg enc). lia. }
  replace (0 <? len (enc ++ rest)) with true
    by (symmetry; apply Z.ltb_lt; rewrite len_app; pose proof (len_nonneg rest); lia).
  replace (0 + len enc) with (len enc) by lia.
  rewrite unpack_dds_from_app. reflexivity.
Qed.

(** X5.  A buffer made of valid encodings, one after the other, decodes
    with [unpack_dds] to their documented values, in order, and the
    generator then ends normally, having stopped exactly at the end of the
    buffer.  If a non-empty piece too short for its leading byte follows,
    the same values come out and the generator then raises [IndexError]. *)
Theorem unpack_dds_concat :
  forall (encs : list bytes) (vals : list Z),
    encodes encs vals ->
    unpack_dds (concat encs) = (vals, None) /\
    (forall h t, len (h :: t) < dd_width (byte_val h) ->
       unpack_dds (concat encs ++ h :: t) = (vals, Some IndexError)).
Proof.
  intros encs vals H. induction H as [|enc v encs vals [Hv Hd] _ [IH1 IH2]].
  - split; [reflexivity |].
    intros h t Hshort. cbn [concat app]. unfold unpack_dds.
    rewrite unpack_dds_from_eq.
    replace (0 <? len (h :: t)) with true
      by (symmetry; apply Z.ltb_lt; rewrite len_cons; pose proof (len_nonneg t); lia).
    rewrite (proj2 (proj2 (unpack_dd_cut (h :: t) 0) h t eq_refl) Hshort).
    reflexivity.
  - cbn [concat]. split.
    + rewrite (@unpack_dds_cons enc (concat encs) v Hv Hd), IH1. reflexivity.
    + intros h t Hshort. rewrite <- app_assoc.
      rewrite (@unpack_dds_cons enc (concat encs ++ h :: t) v Hv Hd), (IH2 h t Hshort).
      reflexivity.
Qed.

Lemma unpack_dds_concat_witness :
  unpack_dds (concat [[x05]; [xbf; xff]; [x0a]]) = ([5; 0x3FFF; 10], None).
Proof.
  apply (proj1 (@unpack_dds_concat [[x05]; [xbf; xff]; [x0a]] [5; 0x3FFF; 10]
                  ltac:(repeat constructor))).
Defined.

Lemma unpack_dd_only_index_error (buf : bytes) (offset : Z) (e : exn) :
  unpack_dd buf offset = Raise e -> e = IndexError.
Proof.
  intros He. destruct (unpack_dd_cut buf offset) as [Hnil Hcons].
  destruct (seek buf offset) as [|h t] eqn:Hs.
  - rewrite (Hnil eq_refl) in He. congruence.
  - destruct (Hcons h t eq_refl) as [Hok Hshort].
    destruct (Z.lt_ge_cases (len (h :: t)) (dd_width (byte_val h))) as [Hlt | Hge].
    + rewrite (Hshort Hlt) in He. congruence.
    + destruct (Hok Hge) as [v Hv]. congruence.
Qed.

Lemma unpack_dds_from_bounds (buf : bytes) (offset : Z) :
  0 <= offset ->
  len (fst (unpack_dds_from buf offset)) <= Z.max 0 (len buf - offset) /\
  Forall (fun v => 0 <= v < 2 ^ 32) (fst (unpack_dds_from buf offset)) /\
  (snd (unpack_dds_from buf offset) = None \/
   snd (unpack_dds_from buf offset) = Some IndexError).
Proof.
  funelim (unpack_dds_from buf offset); intros Hoff; cbn [fst snd].
  - change (len (@nil Z)) with 0. repeat split; [lia | constructor | left; reflexivity].
  - clear Heqcall. pose proof (proj1 (Z.ltb_lt _ _) Hlt) as Hlt'.
    destruct (unpack_dd_decoded _ _ Hdd) as (Hv & Hsize & _).
    destruct H as (Hl & Hf & He); [lia |].
    rewrite len_cons. repeat split; [lia | constructor; assumption | exact He].
  - change (len (@nil Z)) with 0.
    pose proof (unpack_dd_only_index_error _ _ Hdd) as He.
    repeat split; [lia | constructor | right; f_equal; exact He].
Qed.

(** X6.  [unpack_dds] never yields more values than the buffer has bytes,
    every value it yields is a 32-bit value, and it ends either normally
    or with [IndexError], nothing else. *)
Theorem unpack_dds_bounds :
  forall (buf : bytes),
    (List.length (fst (unpack_dds buf)) <= List.length buf)%nat /\
    Forall (fun v => 0 <= v < 2 ^ 32) (fst (unpack_dds buf)) /\
    (snd (unpack_dds buf) = None \/ snd (unpack_dds buf) = Some IndexError).
Proof.
  intros buf. destruct (@unpack_dds_from_bounds buf 0 (Z.le_refl 0)) as (Hl & Hf & He).
  repeat split; try assumption. unfold len, unpack_dds in *. lia.
Qed.

(** ** Function records, continued *)

Ltac leading_values :=
  match goal with
  | |- context [index (?a :: ?b :: ?c :: ?l) 0] =>
      change (index (a :: b :: c :: l) 0) with (Ok a);
      change (index (a :: b :: c :: l) 1) with (Ok b);
      change (index (a :: b :: c :: l) 2) with (Ok c)
  end.

(** With FUNC_TAIL set, [get_values] decodes at most two values after the
    three leading ones. *)
Lemma get_values_tail_length (buf : bytes) (vals : list Z) :
  get_values buf = Ok vals ->
  is_flag_set (nth 2 vals 0) FUNC_TAIL = true ->
  (List.length vals <= 5)%nat.
Proof.
  unfold get_values, optional_values, seq_.
  repeat match goal with
         | |- context [decode ?u buf ?st] =>
             let H := fresh "H" in
             destruct (decode_grows u buf st) as [(? & ? & H) | (? & H)];
             rewrite H; clear H; cbn [snd fst]
         end; try discriminate.
  all: cbn [snd app].
  all: match goal with
       | |- context [index [?a; ?b; ?c] 2] =>
           change (index [a; b; c] 2) with (Ok c)
       end; cbv iota.
  all: match goal with
       | |- context [is_flag_set ?f FUNC_TAIL] =>
           destruct (is_flag_set f FUNC_TAIL) eqn:Hf
       end; cbn [negb snd];
    intros H; inversion H; subst; cbn [nth];
    intros Hf'; try congruence; simpl; lia.
Qed.

Lemma get_values_only_index_error (buf : bytes) (e : exn) :
  get_values buf = Raise e -> e = IndexError.
Proof.
  unfold get_values, seq_, decode.
  repeat match goal with
         | |- context [match ?u buf ?o with _ => _ end] =>
             match u with
             | unpack_dd =>
                 let H := fresh "H" in
                 destruct (unpack_dd buf o) as [[? ?]|?] eqn:H;
                 [| apply unpack_dd_only_index_error in H]
             | unpack_dw =>
                 let H := fresh "H" in
                 destruct (unpack_dw buf o) as [[? ?]|?] eqn:H
             end
         end; try discriminate; try (intros [= <-]; assumption).
  intros [= <-]. revert H1. clear. unfold unpack_dw, bind.
  repeat match goal with
         | |- match ?x with _ => _ end = _ -> _ =>
             let H := fresh "H" in destruct x eqn:H
         | |- (if ?c then _ else _) = _ -> _ => destruct c
         end; try discriminate; intros [= <-];
    repeat match goal with
           | H : byte_at _ _ = Raise _ |- _ =>
               unfold byte_at, index in H; revert H
           end;
    repeat match goal with
           | |- context [if ?c then _ else _] => destruct c
           | |- context [match nth_error ?l ?k with _ => _ end] =>
               destruct (nth_error l k)
           end; cbn [bind]; congruence.
Qed.

(** X7.  For a buffer whose flags lack FUNC_TAIL, construction succeeds
    however many of the optional values the buffer holds, and each of
    [frame], [frsize], [frregs], [argsize], [fpd] is set exactly when its
    value was decoded; [color], [owner] and [refqty] stay absent. *)
Theorem func_t_non_tail_fields :
  forall (buf : bytes) (vals : list Z),
    get_values buf = Ok vals ->
    is_flag_set (nth 2 vals 0) FUNC_TAIL = false ->
    exists r,
      func_t_init buf = Ok r /\
      startEA r = nth 0 vals 0 /\
      endEA r = nth 0 vals 0 + nth 1 vals 0 /\
      flags r = nth 2 vals 0 /\
      frame r = nth_error vals 3 /\
      frsize r = nth_error vals 4 /\
      frregs r = nth_error vals 5 /\
      argsize r = nth_error vals 6 /\
      fpd r = nth_error vals 7 /\
      color r = None /\ owner r = None /\ refqty r = None.
Proof.
  intros buf vals Hg Hf. pose proof (get_values_length _ Hg) as Hlen.
  unfold func_t_init. rewrite Hg. cbn [bind].
  spine vals Hlen; cbn [nth] in *; leading_values;
    cbn [bind flags]; rewrite Hf; cbn [negb];
    eexists; (split; [reflexivity | repeat split]).
Qed.

Lemma func_t_non_tail_fields_witness :
  exists r, func_t_init [x10; x05; x00; x01; x02] = Ok r /\
            frame r = Some 1 /\ frsize r = Some 2 /\ frregs r = None.
Proof.
  destruct (@func_t_non_tail_fields [x10; x05; x00; x01; x02] [0x10; 5; 0; 1; 2]
              eq_refl eq_refl)
    as (r & Hr & _ & _ & _ & Hframe & Hfrsize & Hfrregs & _).
  exists r. repeat split; assumption.
Defined.

(** X8.  For a buffer whose flags have FUNC_TAIL set, [get_values] returns
    at most five values, and when it returns five the record is built with
    [owner] equal to the start address minus the fourth value, [refqty]
    equal to the fifth, and every frame attribute absent. *)
Theorem func_t_tail_fields :
  forall (buf : bytes) (vals : list Z),
    get_values buf = Ok vals ->
    is_flag_set (nth 2 vals 0) FUNC_TAIL = true ->
    (List.length vals <= 5)%nat /\
    (List.length vals = 5%nat ->
     exists r,
       func_t_init buf = Ok r /\
       owner r = Some (nth 0 vals 0 - nth 3 vals 0) /\
       refqty r = Some (nth 4 vals 0) /\
       frame r = None /\ frsize r = None /\ frregs r = None /\
       argsize r = None /\ fpd r = None /\ color r = None).
Proof.
  intros buf vals Hg Hf. split; [eapply get_values_tail_length; eassumption |].
  intros Hlen. unfold func_t_init. rewrite Hg. cbn [bind].
  spine vals Hlen. cbn [nth] in *. leading_values.
  cbn [bind flags]. rewrite Hf. cbn [negb].
  eexists. split; [reflexivity | repeat split].
Qed.

Lemma func_t_tail_fields_witness :
  exists r, func_t_init [x10; x05; xc0; x80; x00; x04; x02] = Ok r /\
            owner r = Some 0xC /\ refqty r = Some 2.
Proof.
  destruct (proj2 (@func_t_tail_fields [x10; x05; xc0; x80; x00; x04; x02]
                     [0x10; 5; 0x8000; 4; 2] eq_refl eq_refl) eq_refl)
    as (r & Hr & Howner & Hrefqty & _).
  exists r. repeat split; assumption.
Defined.

(** X9.  Construction of a record can only fail with [IndexError], and in
    two situations only: one of the three leading values cannot be decoded,
    or FUNC_TAIL is set and fewer than five values were decoded. *)
Theorem func_t_init_failures :
  forall (buf : bytes) (e : exn),
    func_t_init buf = Raise e ->
    e = IndexError /\
    (get_values buf = Raise IndexError \/
     exists vals, get_values buf = Ok vals /\
                  is_flag_set (nth 2 vals 0) FUNC_TAIL = true /\
                  (List.length vals < 5)%nat).
Proof.
  intros buf e. unfold func_t_init.
  destruct (get_values buf) as [vals|e'] eqn:Hg.
  - pose proof (get_values_length _ Hg) as Hlen. cbn [bind].
    destruct (is_flag_set (nth 2 vals 0) FUNC_TAIL) eqn:Hf.
    + pose proof (get_values_tail_length _ Hg Hf) as Hlen5.
      spine vals Hlen; cbn [nth] in *; leading_values;
        cbn [bind flags]; rewrite Hf; cbn [negb];
        try (simpl in Hlen5; lia);
        intros H; try discriminate H;
        (split; [inversion H; reflexivity |]);
        right; eexists; (split; [reflexivity |]); (split; [exact Hf | simpl; lia]).
    + spine vals Hlen; cbn [nth] in *; leading_values;
        cbn [bind flags]; rewrite Hf; cbn [negb]; intros H; discriminate H.
  - cbn [bind]. intros [= <-].
    apply get_values_only_index_error in Hg. subst e'.
    split; [reflexivity | left; reflexivity].
Qed.

Lemma func_t_init_failures_witness :
  get_values [x10; x85] = Raise IndexError.
Proof.
  destruct (proj2 (@func_t_init_failures [x10; x85] IndexError eq_refl))
    as [H | (vals & H & _)]; [exact H | discriminate H].
Defined.

(** ** Structure members, continued *)

Lemma skipn_head {A} (n : nat) (l : list A) (a d : A) (t : list A) :
  skipn n l = a :: t -> nth n l d = a.
Proof.
  revert l. induction n as [|n IH]; intros l H.
  - simpl in H. subst l. reflexivity.
  - destruct l as [|x l]; [discriminate |]. simpl in *. apply IH. exact H.
Qed.

Lemma slice_head {A} (l : list A) (lo hi : Z) (a d : A) (t : list A) :
  0 <= lo <= len l ->
  slice l lo hi = a :: t -> nth (Z.to_nat lo) l d = a.
Proof.
  intros Hlo. unfold slice, clamp.
  destruct (lo <? 0) eqn:E; [apply Z.ltb_lt in E; lia |].
  rewrite (Z.min_l lo) by lia.
  destruct (skipn (Z.to_nat lo) l) as [|x s] eqn:Hs.
  - rewrite firstn_nil. discriminate.
  - match goal with |- firstn ?n _ = _ -> _ => destruct n end;
      [simpl; discriminate |]. cbn [firstn]. intros [= <- _].
    eapply skipn_head. eassumption.
Qed.

Lemma slice_length_short {A} (l : list A) (lo hi : Z) :
  0 <= lo <= len l -> len l <= hi ->
  List.length (slice l lo hi) = Z.to_nat (len l - lo).
Proof.
  intros Hlo Hhi. unfold slice, clamp.
  destruct (lo <? 0) eqn:E1; [apply Z.ltb_lt in E1; lia |].
  destruct (hi <? 0) eqn:E2; [apply Z.ltb_lt in E2; lia |].
  rewrite (Z.min_l lo), (Z.min_r hi) by lia.
  rewrite length_firstn, length_skipn. unfold len in *. lia.
Qed.

(** The 4-byte-word loop, from its [i]-th turn on: it yields the members
    of the complete groups of five values, and ends normally if the count
    is reached, with [ValueError] if the values run out first. *)
Lemma members_loop_4 (db : IDB) (structid : Z) (vals : list Z)
  (count avail r : Z) :
  wordsize db = 4 ->
  0 <= avail -> 0 <= r < 5 -> len vals = 2 + 5 * avail + r ->
  forall (todo : nat) (i : nat) (nid : option Z),
    Z.of_nat i + Z.of_nat todo = Z.max 0 (Z.min count avail) ->
    produces (get_members_next db structid)
      (MembersLoop (mk_members_frame vals count (Z.of_nat i)
                      (2 + 5 * Z.of_nat i) nid))
      (map (fun k => mkStructMember (nodebase db + nth (2 + 5 * k) vals 0))
           (seq i todo))
      (if count <=? avail then None else Some ValueError).
Proof.
  intros Hw Havail Hr Hlen todo.
  induction todo as [|todo IH]; intros i nid Hi.
  - apply produces_halt. cbn [get_members_next]. unfold members_loop.
    cbn [m_i m_count m_vals m_offset m_nodeid_offset].
    destruct (count <=? avail) eqn:Hc.
    + apply Z.leb_le in Hc.
      replace (Z.of_nat i <? count) with false
        by (symmetry; apply Z.ltb_ge; lia).
      reflexivity.
    + apply Z.leb_gt in Hc.
      replace (Z.of_nat i <? count) with true
        by (symmetry; apply Z.ltb_lt; lia).
      rewrite Hw. cbn [Z.eqb Pos.eqb].
      assert (Hs : List.length (slice vals (2 + 5 * Z.of_nat i)
                                  (2 + 5 * Z.of_nat i + 5)) = Z.to_nat r)
        by (rewrite slice_length_short by lia; f_equal; lia).
      revert Hs.
      destruct (slice vals (2 + 5 * Z.of_nat i) (2 + 5 * Z.of_nat i + 5))
        as [|a0 [|a1 [|a2 [|a3 [|a4 [|a5 rest]]]]]];
        cbn [List.length]; intros Hs; try reflexivity; lia.
  - cbn [seq map].
    eapply produces_yield.
    2:{ specialize (IH (S i) (Some (nth (2 + 5 * i) vals 0))).
        replace (2 + 5 * Z.of_nat (S i)) with (2 + 5 * Z.of_nat i + 5) in IH by lia.
        replace (Z.of_nat (S i)) with (Z.of_nat i + 1) in IH by lia.
        apply IH. lia. }
    cbn [get_members_next]. unfold members_loop.
    cbn [m_i m_count m_vals m_offset m_nodeid_offset].
    replace (Z.of_nat i <? count) with true
      by (symmetry; apply Z.ltb_lt; lia).
    rewrite Hw. cbn [Z.eqb Pos.eqb].
    assert (Hs : List.length (slice vals (2 + 5 * Z.of_nat i)
                                (2 + 5 * Z.of_nat i + 5)) = 5%nat)
      by (rewrite slice_length by lia; f_equal; lia).
    pose proof (fun a t => @slice_head _ vals (2 + 5 * Z.of_nat i)
                             (2 + 5 * Z.of_nat i + 5) a 0 t) as Hh.
    revert Hs Hh.
    destruct (slice vals (2 + 5 * Z.of_nat i) (2 + 5 * Z.of_nat i + 5))
      as [|a0 [|a1 [|a2 [|a3 [|a4 [|a5 rest]]]]]];
      cbn [List.length]; intros Hs Hh; try lia.
    specialize (Hh a0 _ ltac:(lia) eq_refl).
    replace (Z.to_nat (2 + 5 * Z.of_nat i)) with (2 + 5 * i)%nat in Hh by lia.
    rewrite Hh. reflexivity.
Qed.

(** The code before the loop, on a well-formed header. *)
Lemma get_members_entry (db : IDB) (structid : Z) (v : bytes) (vals : list Z)
  (header count : Z) :
  supval db structid "M"%char 0 = Ok v ->
  list_of (unpack_dds v) = Ok vals ->
  index vals 0 = Ok header ->
  truthy (Z.land header SF_FRAME) = true ->
  index vals 1 = Ok count ->
  get_members_next db structid MembersEntry
  = get_members_next db structid
      (MembersLoop (mk_members_frame vals count 0 2 None)).
Proof.
  intros Hv Hvals H0 Hf H1. cbn [get_members_next].
  rewrite Hv. cbn [bind]. rewrite Hvals. cbn [bind]. rewrite H0. cbn [bind].
  rewrite Hf. cbn [negb]. rewrite H1. reflexivity.
Qed.

Lemma members_of_length (db : IDB) (vals : list Z) (n : nat) :
  List.length (members_of db vals n) = n.
Proof. unfold members_of. rewrite length_map, length_seq. reflexivity. Qed.

(** X10.  With 4-byte words and a member array whose first value has
    SF_FRAME set, whose second value is the member count and which holds
    five values per counted member, [get_members] yields one member per
    counted member, in order, the [k]-th with node id equal to the base
    address plus the value at position [2 + 5 * k], and then ends. *)
Theorem get_members_4_byte_words_yields :
  forall (db : IDB) (structid : Z) (v : bytes) (vals : list Z)
         (header : Z) (count fuel : nat),
    wordsize db = 4 ->
    supval db structid "M"%char 0 = Ok v ->
    list_of (unpack_dds v) = Ok vals ->
    index vals 0 = Ok header ->
    truthy (Z.land header SF_FRAME) = true ->
    index vals 1 = Ok (Z.of_nat count) ->
    (2 + 5 * count <= List.length vals)%nat ->
    (count < fuel)%nat ->
    drive (get_members_next db structid) fuel MembersEntry
    = (members_of db vals count, Finished).
Proof.
  intros db structid v vals header count fuel Hw Hv Hvals H0 Hf H1 Hlen Hfuel.
  set (avail := (len vals - 2) / 5).
  set (r := (len vals - 2) mod 5).
  assert (Hdm : len vals - 2 = 5 * avail + r) by (apply Z.div_mod; lia).
  assert (Hr : 0 <= r < 5) by (apply Z.mod_pos_bound; lia).
  assert (Hlen' : 2 + 5 * Z.of_nat count <= len vals) by (unfold len; lia).
  assert (Hav : Z.of_nat count <= avail) by lia.
  pose proof (@members_loop_4 db structid vals (Z.of_nat count) avail r Hw
                ltac:(lia) Hr ltac:(lia) count 0%nat None ltac:(lia)) as Hp.
  replace (Z.of_nat count <=? avail) with true in Hp
    by (symmetry; apply Z.leb_le; lia).
  apply (@drive_produces _ _ _ _ _ None).
  - eapply produces_same_step; [| exact Hp].
    eapply get_members_entry; eassumption.
  - rewrite members_of_length. exact Hfuel.
Qed.

Lemma get_members_4_byte_words_yields_witness :
  drive (get_members_next
           (mkIDB 4 (fun _ => None)
                  (fun _ _ _ => Ok [x40; x02; x05; x00; x00; x00; x00;
                                    x09; x00; x00; x00; x00])
                  (fun _ _ => exhausted) 0xFF000000)
           0xFF000075) 3 MembersEntry
  = ([mkStructMember 0xFF000005; mkStructMember 0xFF000009], Finished).
Proof.
  apply (@get_members_4_byte_words_yields
           (mkIDB 4 (fun _ => None)
                  (fun _ _ _ => Ok [x40; x02; x05; x00; x00; x00; x00;
                                    x09; x00; x00; x00; x00])
                  (fun _ _ => exhausted) 0xFF000000)
           0xFF000075
           [x40; x02; x05; x00; x00; x00; x00; x09; x00; x00; x00; x00]
           [0x40; 2; 5; 0; 0; 0; 0; 9; 0; 0; 0; 0] 0x40 2 3
           eq_refl eq_refl eq_refl eq_refl eq_refl eq_refl);
    simpl; lia.
Defined.

(** X11.  With 4-byte words and a member array that counts more members
    than it holds groups of five values for, [get_members] yields the
    members of the complete groups and then raises [ValueError]. *)
Theorem get_members_4_byte_words_short :
  forall (db : IDB) (structid : Z) (v : bytes) (vals : list Z)
         (header count : Z) (complete fuel : nat),
    wordsize db = 4 ->
    supval db structid "M"%char 0 = Ok v ->
    list_of (unpack_dds v) = Ok vals ->
    index vals 0 = Ok header ->
    truthy (Z.land header SF_FRAME) = true ->
    index vals 1 = Ok count ->
    (2 + 5 * complete <= List.length vals < 2 + 5 * complete + 5)%nat ->
    Z.of_nat complete < count ->
    (complete < fuel)%nat ->
    drive (get_members_next db structid) fuel MembersEntry
    = (members_of db vals complete, Raised ValueError).
Proof.
  intros db structid v vals header count complete fuel
         Hw Hv Hvals H0 Hf H1 Hlen Hc Hfuel.
  pose proof (@members_loop_4 db structid vals count (Z.of_nat complete)
                (len vals - 2 - 5 * Z.of_nat complete) Hw
                ltac:(lia) ltac:(unfold len; lia) ltac:(lia)
                complete 0%nat None ltac:(lia)) as Hp.
  replace (count <=? Z.of_nat complete) with false in Hp
    by (symmetry; apply Z.leb_gt; lia).
  apply (@drive_produces _ _ _ _ _ (Some ValueError)).
  - eapply produces_same_step; [| exact Hp].
    eapply get_members_entry; eassumption.
  - rewrite members_of_length. exact Hfuel.
Qed.

Lemma get_members_4_byte_words_short_witness :
  drive (get_members_next
           (mkIDB 4 (fun _ => None)
                  (fun _ _ _ => Ok [x40; x02; x05; x00; x00; x00; x00; x09])
                  (fun _ _ => exhausted) 0xFF000000)
           0xFF000075) 2 MembersEntry
  = ([mkStructMember 0xFF000005], Raised ValueError).
Proof.
  apply (@get_members_4_byte_words_short
           (mkIDB 4 (fun _ => None)
                  (fun _ _ _ => Ok [x40; x02; x05; x00; x00; x00; x00; x09])
                  (fun _ _ => exhausted) 0xFF000000)
           0xFF000075
           [x40; x02; x05; x00; x00; x00; x00; x09]
           [0x40; 2; 5; 0; 0; 0; 0; 9] 0x40 2 1 2
           eq_refl eq_refl eq_refl eq_refl eq_refl eq_refl);
    simpl; lia.
Defined.

(** X12.  The word size is only looked at inside the loop: when the member
    count is zero, [get_members] ends at once without yielding, whatever
    the word size, and an unsupported word size raises [RuntimeError] only
    when there is at least one member to decode. *)
Theorem get_members_word_size_check :
  forall (db : IDB) (structid : Z) (v : bytes) (vals : list Z)
         (header count : Z) (fuel : nat),
    supval db structid "M"%char 0 = Ok v ->
    list_of (unpack_dds v) = Ok vals ->
    index vals 0 = Ok header ->
    truthy (Z.land header SF_FRAME) = true ->
    index vals 1 = Ok count ->
    (count <= 0 ->
     drive (get_members_next db structid) (S fuel) MembersEntry
     = ([], Finished)) /\
    (0 < count -> wordsize db <> 4 -> wordsize db <> 8 ->
     drive (get_members_next db structid) (S fuel) MembersEntry
     = ([], Raised RuntimeError)).
Proof.
  intros db structid v vals header count fuel Hv Hvals H0 Hf H1.
  cbn [drive].
  rewrite (get_members_entry db structid Hv Hvals H0 Hf H1).
  cbn [get_members_next]. unfold members_loop.
  cbn [m_i m_count m_vals m_offset m_nodeid_offset].
  split.
  - intros Hc.
    replace (0 <? count) with false by (symmetry; apply Z.ltb_ge; lia).
    reflexivity.
  - intros Hc H4 H8.
    replace (0 <? count) with true by (symmetry; apply Z.ltb_lt; lia).
    apply Z.eqb_neq in H4. apply Z.eqb_neq in H8. rewrite H4, H8. reflexivity.
Qed.

Lemma get_members_word_size_check_witness :
  drive (get_members_next (one_member_db 2) 0xFF000075) 1 MembersEntry
  = ([], Raised RuntimeError).
Proof.
  apply (proj2 (@get_members_word_size_check (one_member_db 2) 0xFF000075
                  [x40; x01; x05; x00; x00; x00; x00; x00; x00; x00]
                  [0x40; 1; 5; 0; 0; 0; 0; 0; 0; 0] 0x40 1 0
                  eq_refl eq_refl eq_refl eq_refl eq_refl));
    [lia | simpl; discriminate | simpl; discriminate].
Defined.

(** ** Chunking helpers, continued *)

(** X13.  On a generator that ends normally, and for a chunk size
    [n] with [0 < n <= sys.maxsize], [chunks] ends after yielding groups
    whose concatenation is the input, none of them empty, each of [n]
    elements except possibly the last, which may be shorter. *)
Theorem chunks_of_generator_groups :
  forall (A : Type) (n : nat) (xs : list A),
    (0 < n)%nat -> Z.of_nat n <= maxsize ->
    exists gs,
      drive (chunks_next (Z.of_nat n)) (S (List.length xs))
            (chunks (GeneratorType (xs, None)))
      = (gs, Finished) /\
      concat gs = xs /\
      (forall pre g post,
         gs = pre ++ g :: post ->
         g <> [] /\ (List.length g <= n)%nat /\
         (post <> [] -> List.length g = n)).
Proof.
  intros A n xs Hn Hmax. exists (groups n xs). split; [| split].
  - apply chunks_of_generator_terminates; assumption.
  - apply concat_groups. exact Hn.
  - intros pre g post E. eapply groups_shape. exact E.
Qed.

Lemma chunks_of_generator_groups_witness :
  exists gs,
    drive (chunks_next 2) 6 (chunks (GeneratorType ([1; 2; 3; 4; 5], None)))
    = (gs, Finished) /\ concat gs = [1; 2; 3; 4; 5].
Proof.
  destruct (@chunks_of_generator_groups Z 2 [1; 2; 3; 4; 5] (le_S _ _ (le_n 1))
              ltac:(vm_compute; intros H; discriminate H))
    as (gs & Hd & Hc & _).
  exists gs. split; assumption.
Defined.

Lemma islice_raising {A} (n : nat) (xs : list A) (e : exn) :
  islice n (xs, Some e)
  = if (n <=? List.length xs)%nat
    then (Ok (firstn n xs), (skipn n xs, Some e))
    else (Raise e, exhausted).
Proof.
  revert xs. induction n as [|n IH]; intros xs; [reflexivity |].
  destruct xs as [|x xs]; [reflexivity |].
  cbn [islice gen_next List.length firstn skipn]. rewrite IH.
  change (S n <=? S (List.length xs))%nat with (n <=? List.length xs)%nat.
  destruct (n <=? List.length xs)%nat; reflexivity.
Qed.

Lemma groups_step {A} (n : nat) (xs : list A) :
  (0 < n)%nat -> xs <> [] ->
  groups n xs = firstn n xs :: groups n (skipn n xs).
Proof.
  intros Hn Hx. destruct n as [|m]; [lia |].
  destruct xs as [|x xs]; [contradiction |].
  simp groups. reflexivity.
Qed.

Lemma chunks_of_raising_generator {A} (n : nat) (e : exn) :
  (0 < n)%nat -> Z.of_nat n <= maxsize ->
  forall (k : nat) (xs : list A),
    List.length xs = k ->
    produces (chunks_next (Z.of_nat n)) (FromGenerator (xs, Some e))
             (full_groups n xs) (Some e).
Proof.
  intros Hn Hmax k. induction k as [k IH] using lt_wf_ind. intros xs Hk.
  assert (Hz : (Z.of_nat n <? 0) || (maxsize <? Z.of_nat n) = false)
    by (apply stop_accepted; lia).
  unfold full_groups.
  destruct (Nat.leb_spec n (List.length xs)) as [Hle | Hlt].
  - assert (Hx : xs <> []) by (destruct xs; [simpl in Hle; lia | discriminate]).
    rewrite (groups_step Hn Hx).
    replace (List.length xs / n)%nat
      with (S (List.length (skipn n xs) / n))%nat.
    2:{ rewrite length_skipn.
        replace (List.length xs) with ((List.length xs - n) + 1 * n)%nat at 2 by lia.
        rewrite Nat.div_add by lia. lia. }
    cbn [firstn]. eapply produces_yield.
    + unfold chunks_next. rewrite Hz, Nat2Z.id, islice_raising.
      replace (n <=? List.length xs)%nat with true
        by (symmetry; apply Nat.leb_le; exact Hle).
      destruct (firstn n xs) eqn:Hf; [| reflexivity].
      apply (f_equal (@List.length A)) in Hf. rewrite length_firstn in Hf.
      simpl in Hf. lia.
    + apply (IH (List.length (skipn n xs))); [| reflexivity].
      rewrite length_skipn. lia.
  - rewrite Nat.div_small by lia. cbn [firstn].
    apply produces_halt. unfold chunks_next.
    rewrite Hz, Nat2Z.id, islice_raising.
    replace (n <=? List.length xs)%nat with false
      by (symmetry; apply Nat.leb_gt; exact Hlt).
    reflexivity.
Qed.

Lemma full_groups_length {A} (n : nat) (xs : list A) :
  (List.length (full_groups n xs) <= List.length xs)%nat.
Proof.
  unfold full_groups. rewrite length_firstn.
  pose proof (groups_length n xs). lia.
Qed.

(** X14.  On a generator that raises after its values, and for
    [0 < n <= sys.maxsize], [chunks] yields the full groups of [n] values
    and then lets the exception through: values pulled for a group that
    the exception interrupts are lost. *)
Theorem chunks_of_raising_generator_groups :
  forall (A : Type) (n : nat) (xs : list A) (e : exn),
    (0 < n)%nat -> Z.of_nat n <= maxsize ->
    drive (chunks_next (Z.of_nat n)) (S (List.length xs))
          (chunks (GeneratorType (xs, Some e)))
    = (full_groups n xs, Raised e)
    /\ concat (full_groups n xs) = firstn (List.length xs / n * n) xs.
Proof.
  intros A n xs e Hn Hmax. split.
  - apply (drive_produces
             (@chunks_of_raising_generator A n e Hn Hmax (List.length xs) xs
                eq_refl)).
    pose proof (full_groups_length n xs). lia.
  - unfold full_groups.
    remember (List.length xs) as k eqn:Hk. revert xs Hk.
    induction k as [k IH] using lt_wf_ind. intros xs Hk.
    destruct (Nat.leb_spec n k) as [Hle | Hlt].
    + assert (Hx : xs <> []) by (destruct xs; [simpl in Hk; lia | discriminate]).
      rewrite (groups_step Hn Hx).
      replace (k / n)%nat with (S ((k - n) / n))%nat.
      2:{ replace k with ((k - n) + 1 * n)%nat at 2 by lia.
          rewrite Nat.div_add by lia. lia. }
      cbn [firstn concat].
      rewrite (IH (k - n)%nat) by (try rewrite length_skipn; lia).
      cbn [Nat.mul]. rewrite Nat.add_comm.
      rewrite <- (firstn_skipn n xs) at 3.
      rewrite firstn_app, length_firstn.
      replace (Nat.min n (List.length xs)) with n by lia.
      rewrite (firstn_all2 (n := (k - n) / n * n + n)) by (rewrite length_firstn; lia).
      f_equal. f_equal. lia.
    + rewrite Nat.div_small by lia. reflexivity.
Qed.

Lemma chunks_of_raising_generator_groups_witness :
  drive (chunks_next 2) 4 (chunks (GeneratorType ([1; 2; 3], Some IndexError)))
  = ([[1; 2]], Raised IndexError).
Proof.
  apply (proj1 (@chunks_of_raising_generator_groups Z 2 [1; 2; 3] IndexError
                  (le_S _ _ (le_n 1))
                  ltac:(vm_compute; intros H; discriminate H))).
Defined.

(** ** Function details, continued *)

Lemma get_chunks_loop_pair (last_ea last_length delta l : Z) (rest : list Z)
  (e : option exn) :
  get_chunks_loop last_ea last_length (FromGenerator (delta :: l :: rest, e))
  = Yield (mkChunk (last_ea + last_length + delta) l)
          (ChunksLoop (last_ea + last_length + delta) l (FromGenerator (rest, e))).
Proof. reflexivity. Qed.

Lemma get_chunks_loop_produces (db : IDB) (fva : Z) (ps : list (Z * Z)) :
  forall last_ea last_length,
    produces (get_chunks_next db fva)
             (ChunksLoop last_ea last_length (FromGenerator (flatten ps, None)))
             (chunk_list (last_ea + last_length) ps) None.
Proof.
  induction ps as [|[delta l] ps IH]; intros last_ea last_length.
  - apply produces_halt. reflexivity.
  - cbn [chunk_list flatten]. eapply produces_yield.
    + cbn [get_chunks_next]. apply get_chunks_loop_pair.
    + apply IH.
Qed.

Lemma chunk_list_length (ps : list (Z * Z)) :
  forall last_end, List.length (chunk_list last_end ps) = List.length ps.
Proof.
  induction ps as [|[d l] ps IH]; intros last_end; simpl;
    [reflexivity | rewrite IH; reflexivity].
Qed.

Lemma chunk_list_ascending (ps : list (Z * Z)) :
  Forall (fun v => 0 <= v < 2 ^ 32) (flatten ps) ->
  forall floor, ascending_from floor (chunk_list floor ps).
Proof.
  induction ps as [|[d l] ps IH]; intros Hf floor; [exact I |].
  cbn [flatten] in Hf. inversion Hf as [|? ? Hd Hf']; subst.
  inversion Hf' as [|? ? Hl Hf'']; subst.
  cbn [chunk_list ascending_from chunk_effective_address chunk_length].
  split; [lia |]. split; [lia |]. apply IH. exact Hf''.
Qed.

Lemma get_chunks_entry (db : IDB) (fva : Z) (v : bytes) :
  supval db fva "S"%char 0x7000 = Ok v ->
  get_chunks_next db fva ChunksEntry
  = get_chunks_next db fva (ChunksLoop 0 0 (FromGenerator (unpack_dds v))).
Proof. intros Hv. cbn [get_chunks_next]. rewrite Hv. reflexivity. Qed.

(** X15.  When the array at tag S, index 0x7000 decodes to a sequence of
    (delta, length) pairs, [get_chunks] yields one chunk per pair and then
    ends: the first chunk starts at its delta, every other one starts its
    delta after the end of the chunk before.  The chunks therefore come in
    ascending address order and never overlap. *)
Theorem get_chunks_decodes :
  forall (db : IDB) (fva : Z) (v : bytes) (ps : list (Z * Z)) (fuel : nat),
    supval db fva "S"%char 0x7000 = Ok v ->
    unpack_dds v = (flatten ps, None) ->
    (List.length ps < fuel)%nat ->
    drive (get_chunks_next db fva) fuel ChunksEntry
    = (chunk_list 0 ps, Finished)
    /\ ascending_from 0 (chunk_list 0 ps).
Proof.
  intros db fva v ps fuel Hv Hdds Hfuel. split.
  - apply (@drive_produces _ _ _ _ _ None).
    + eapply produces_same_step; [apply get_chunks_entry; exact Hv |].
      rewrite Hdds. apply (get_chunks_loop_produces db fva ps 0 0).
    + rewrite chunk_list_length. exact Hfuel.
  - apply chunk_list_ascending.
    pose proof (@unpack_dds_from_bounds v 0 (Z.le_refl 0)) as (_ & Hf & _).
    fold (unpack_dds v) in Hf.
    rewrite Hdds in Hf. exact Hf.
Qed.

Lemma get_chunks_decodes_witness :
  drive (get_chunks_next
           (mkIDB 4 (fun _ => None)
                  (fun _ _ _ => Ok [x81; x00; x10; x05; x20])
                  (fun _ _ => exhausted) 0xFF000000) 0x401000) 3 ChunksEntry
  = ([mkChunk 0x100 0x10; mkChunk 0x115 0x20], Finished).
Proof.
  apply (proj1 (@get_chunks_decodes
                  (mkIDB 4 (fun _ => None)
                         (fun _ _ _ => Ok [x81; x00; x10; x05; x20])
                         (fun _ _ => exhausted) 0xFF000000)
                  0x401000 [x81; x00; x10; x05; x20]
                  [(0x100, 0x10); (0x5, 0x20)] 3 eq_refl eq_refl (le_n 3))).
Defined.

Lemma scp_loop_produces_cut (db : IDB) (fva : Z) (tail : list Z)
  (e e' : option exn) (ps : list (Z * Z)) :
  (forall offset,
     get_stack_change_points_next db fva
       (ScpLoop offset (FromGenerator (tail, e))) = Halt e') ->
  forall offset,
    produces (get_stack_change_points_next db fva)
             (ScpLoop offset (FromGenerator (flatten ps ++ tail, e)))
             (change_points offset ps) e'.
Proof.
  intros Hend. induction ps as [|[delta c] ps IH]; intros offset.
  - apply produces_halt. apply Hend.
  - eapply produces_yield; [| apply IH].
    cbn [get_stack_change_points_next flatten app].
    rewrite scp_loop_pair, low_bit. reflexivity.
Qed.

(** X16.  When the array at tag S, index 0x1000 does not decode to whole
    pairs, [get_stack_change_points] still yields the points of the pairs
    that are complete, and then raises: [ValueError] if the values end
    normally with one value left over, and the decoder's own exception if
    the buffer is cut inside an encoding, the left-over value, if any,
    being dropped. *)
Theorem get_stack_change_points_incomplete :
  forall (db : IDB) (fva : Z) (v : bytes) (ps : list (Z * Z)) (fuel : nat),
    supval db fva "S"%char 0x1000 = Ok v ->
    (List.length ps < fuel)%nat ->
    (forall x, unpack_dds v = (flatten ps ++ [x], None) ->
       drive (get_stack_change_points_next db fva) fuel ScpEntry
       = (change_points fva ps, Raised ValueError))
    /\
    (forall tail e, (List.length tail <= 1)%nat ->
       unpack_dds v = (flatten ps ++ tail, Some e) ->
       drive (get_stack_change_points_next db fva) fuel ScpEntry
       = (change_points fva ps, Raised e)).
Proof.
  intros db fva v ps fuel Hv Hfuel.
  assert (Hentry : forall g,
             unpack_dds v = g ->
             get_stack_change_points_next db fva ScpEntry
             = get_stack_change_points_next db fva
                 (ScpLoop fva (FromGenerator g))).
  { intros g <-. cbn [get_stack_change_points_next]. rewrite Hv. reflexivity. }
  split.
  - intros x Hdds.
    apply (@drive_produces _ _ _ _ _ (Some ValueError)).
    + eapply produces_same_step; [apply Hentry; exact Hdds |].
      apply scp_loop_produces_cut. intros offset. reflexivity.
    + rewrite change_points_length. exact Hfuel.
  - intros tail e Htail Hdds.
    apply (@drive_produces _ _ _ _ _ (Some e)).
    + eapply produces_same_step; [apply Hentry; exact Hdds |].
      apply scp_loop_produces_cut. intros offset.
      destruct tail as [|x [|y tail]]; [reflexivity | reflexivity |].
      simpl in Htail. lia.
    + rewrite change_points_length. exact Hfuel.
Qed.

Lemma get_stack_change_points_incomplete_witness :
  drive (get_stack_change_points_next
           (mkIDB 4 (fun _ => None) (fun _ _ _ => Ok [x04; x07; x08; xe0])
                  (fun _ _ => exhausted) 0xFF000000) 0x401000) 2 ScpEntry
  = ([mkStackChangePoint 0x401004 3], Raised IndexError).
Proof.
  apply (proj2 (@get_stack_change_points_incomplete
                  (mkIDB 4 (fun _ => None) (fun _ _ _ => Ok [x04; x07; x08; xe0])
                         (fun _ _ => exhausted) 0xFF000000)
                  0x401000 [x04; x07; x08; xe0] [(4, 7)] 2 eq_refl (le_n 2))
               [8] IndexError (le_n 1) eq_refl).
Defined.

(** ** Cross references, continued *)

Lemma xrefs_loop_produces_any (db : IDB) (tag : ascii) (src dst : option Z)
  (types : option (list Z)) (ea : Z) (e : option exn) (entries : list Entry) :
  (if given src then src else dst) = Some ea ->
  produces (_get_xrefs_next db tag src dst types)
           (XrefsLoop (entries, e))
           (map (xref_of src dst ea) (filter (passes types) entries))
           (after_key_error e).
Proof.
  intros Hea. induction entries as [|entry rest IH].
  - apply produces_halt. destruct e as [[]|]; reflexivity.
  - cbn [filter]. destruct (passes types entry) eqn:Hp.
    + eapply produces_yield; [| exact IH].
      cbn [_get_xrefs_next xrefs_loop map]. rewrite passes_test, Hp, Hea.
      unfold xref_of, xref_from, xref_to. destruct (given src); reflexivity.
    + eapply produces_same_step; [| exact IH].
      cbn [_get_xrefs_next xrefs_loop]. rewrite passes_test, Hp. reflexivity.
Qed.

Lemma get_xrefs_produces (db : IDB) (tag : ascii) (src dst : option Z)
  (types : option (list Z)) (ea : Z) :
  (if given src then src else dst) = Some ea -> ea <> 0 ->
  produces (_get_xrefs_next db tag src dst types) XrefsEntry
           (map (xref_of src dst ea)
                (filter (passes types) (fst (charentries db ea tag))))
           (after_key_error (snd (charentries db ea tag))).
Proof.
  intros Hea Hnz.
  eapply produces_same_step; [apply get_xrefs_entry; eassumption |].
  destruct (charentries db ea tag) as [entries e]. cbn [fst snd].
  apply xrefs_loop_produces_any. exact Hea.
Qed.

(** What a consumer has seen after any number of resumptions is a prefix
    of what the generator produces in all. *)
Lemma drive_prefix {S A} (next : S -> step S A) s vs e :
  produces next s vs e ->
  forall fuel, exists k, fst (drive next fuel s) = firstn k vs.
Proof.
  induction 1 as [s e Hn | s v s' vs e Hn Hp IH]; intros fuel.
  - exists 0%nat. destruct fuel; simpl; [| rewrite Hn]; reflexivity.
  - destruct fuel as [|fuel]; [exists 0%nat; reflexivity |].
    destruct (IH fuel) as [k Hk]. exists (Datatypes.S k).
    simpl. rewrite Hn. destruct (drive next fuel s') as [vs' o].
    simpl in *. rewrite Hk. reflexivity.
Qed.

Lemma in_prefix {A} (k : nat) (l : list A) (x : A) :
  In x (firstn k l) -> In x l.
Proof.
  revert l. induction k as [|k IH]; intros l H; [contradiction |].
  destruct l as [|a l]; [contradiction |].
  destruct H as [-> | H]; [left; reflexivity | right; apply IH; exact H].
Qed.

Lemma yielded_xref (db : IDB) (tag : ascii) (src dst : option Z)
  (types : option (list Z)) (ea : Z) (fuel : nat) (x : Xref) :
  (if given src then src else dst) = Some ea -> ea <> 0 ->
  In x (fst (drive (_get_xrefs_next db tag src dst types) fuel XrefsEntry)) ->
  exists entry,
    In entry (fst (charentries db ea tag)) /\
    passes types entry = true /\
    x = xref_of src dst ea entry.
Proof.
  intros Hea Hnz Hin.
  destruct (drive_prefix (get_xrefs_produces db tag src dst types Hea Hnz) fuel)
    as [k Hk].
  rewrite Hk in Hin. apply in_prefix in Hin.
  apply in_map_iff in Hin. destruct Hin as (entry & <- & Hin).
  apply filter_In in Hin. destruct Hin as [Hin Hp].
  exists entry. repeat split; assumption.
Qed.

(** X17.  For a non-zero address, every reference that the "to" queries
    yield has that address as its destination, and every reference that
    the "from" queries yield has it as its source; the other end and the
    type are the key and the value of an entry that the node of the
    address has under the tag of the query (X and D for references to the
    address, x and d for references from it), and that passes the type
    filter.  This holds after any number of resumptions. *)
Theorem xrefs_direction :
  forall (db : IDB) (ea : Z) (types : option (list Z)) (fuel : nat) (x : Xref),
    ea <> 0 ->
    (In x (fst (drive (get_crefs_to_next db ea types) fuel XrefsEntry)) ->
     dst x = ea /\
     In (mkEntry (src x) (type x)) (fst (charentries db ea "X"%char)) /\
     passes types (mkEntry (src x) (type x)) = true) /\
    (In x (fst (drive (get_crefs_from_next db ea types) fuel XrefsEntry)) ->
     src x = ea /\
     In (mkEntry (dst x) (type x)) (fst (charentries db ea "x"%char)) /\
     passes types (mkEntry (dst x) (type x)) = true) /\
    (In x (fst (drive (get_drefs_to_next db ea types) fuel XrefsEntry)) ->
     dst x = ea /\
     In (mkEntry (src x) (type x)) (fst (charentries db ea "D"%char)) /\
     passes types (mkEntry (src x) (type x)) = true) /\
    (In x (fst (drive (get_drefs_from_next db ea types) fuel XrefsEntry)) ->
     src x = ea /\
     In (mkEntry (dst x) (type x)) (fst (charentries db ea "d"%char)) /\
     passes types (mkEntry (dst x) (type x)) = true).
Proof.
  intros db ea types fuel x Hnz. pose proof (given_nonzero Hnz) as Hg.
  assert (Hto : forall tag,
             In x (fst (drive (_get_xrefs_next db tag None (Some ea) types)
                              fuel XrefsEntry)) ->
             dst x = ea /\
             In (mkEntry (src x) (type x)) (fst (charentries db ea tag)) /\
             passes types (mkEntry (src x) (type x)) = true).
  { intros tag Hin.
    destruct (@yielded_xref db tag None (Some ea) types ea fuel x eq_refl Hnz Hin)
      as ([k t] & Hentry & Hp & ->).
    unfold xref_of, xref_to. cbn [given src dst type parsed_key_index value].
    repeat split; assumption. }
  assert (Hfrom : forall tag,
             In x (fst (drive (_get_xrefs_next db tag (Some ea) None types)
                              fuel XrefsEntry)) ->
             src x = ea /\
             In (mkEntry (dst x) (type x)) (fst (charentries db ea tag)) /\
             passes types (mkEntry (dst x) (type x)) = true).
  { intros tag Hin.
    assert (Hea : (if given (Some ea) then Some ea else None) = Some ea)
      by (rewrite Hg; reflexivity).
    destruct (@yielded_xref db tag (Some ea) None types ea fuel x Hea Hnz Hin)
      as ([k t] & Hentry & Hp & ->).
    unfold xref_of, xref_from. rewrite Hg.
    cbn [src dst type parsed_key_index value].
    repeat split; assumption. }
  split; [apply Hto | split; [apply Hfrom | split; [apply Hto | apply Hfrom]]].
Qed.

Lemma xrefs_direction_witness :
  dst (mkXref 0x402000 0x401000 17) = 0x401000.
Proof.
  apply (proj1 (proj1 (@xrefs_direction one_entry_db 0x401000 None 2
                         (mkXref 0x402000 0x401000 17) ltac:(discriminate))
                  (or_introl eq_refl))).
Defined.

(** X18.  Only [KeyError] is caught around the enumeration of the node:
    when the enumeration ends with any other exception, [_get_xrefs]
    yields the references of the entries enumerated before it that pass
    the filter and then raises that exception. *)
Theorem get_xrefs_other_errors :
  forall (db : IDB) (tag : ascii) (src dst : option Z) (types : option (list Z))
         (ea : Z) (entries : list Entry) (e : exn) (fuel : nat),
    (if given src then src else dst) = Some ea ->
    ea <> 0 ->
    charentries db ea tag = (entries, Some e) ->
    e <> KeyError ->
    (List.length entries < fuel)%nat ->
    drive (_get_xrefs_next db tag src dst types) fuel XrefsEntry
    = (map (xref_of src dst ea) (filter (passes types) entries), Raised e).
Proof.
  intros db tag src dst types ea entries e fuel Hea Hnz Hc He Hfuel.
  pose proof (get_xrefs_produces db tag src dst types Hea Hnz) as Hp.
  rewrite Hc in Hp. cbn [fst snd] in Hp.
  replace (after_key_error (Some e)) with (Some e) in Hp
    by (destruct e; try reflexivity; contradiction).
  apply (drive_produces Hp).
  rewrite length_map. pose proof (filter_length_le (passes types) entries). lia.
Qed.

Lemma get_xrefs_other_errors_witness :
  drive (_get_xrefs_next
           (mkIDB 4 (fun _ => None) (fun _ _ _ => Raise KeyError)
                  (fun _ _ => ([mkEntry 0x402000 17], Some RuntimeError))
                  0xFF000000)
           "x"%char (Some 0x401000) None None) 2 XrefsEntry
  = ([mkXref 0x401000 0x402000 17], Raised RuntimeError).
Proof.
  apply (@get_xrefs_other_errors
           (mkIDB 4 (fun _ => None) (fun _ _ _ => Raise KeyError)
                  (fun _ _ => ([mkEntry 0x402000 17], Some RuntimeError))
                  0xFF000000)
           "x"%char (Some 0x401000) None None 0x401000
           [mkEntry 0x402000 17] RuntimeError 2 eq_refl);
    [discriminate | reflexivity | discriminate | apply le_n].
Defined.

(** ** Segment records *)

Lemma index_raise {A} (l : list A) (k : Z) (e : exn) :
  0 <= k -> index l k = Raise e -> e = IndexError /\ len l <= k.
Proof.
  intros Hk. unfold index.
  destruct (k <? 0) eqn:E; [apply Z.ltb_lt in E; lia |]. rewrite E.
  destruct (nth_error l (Z.to_nat k)) eqn:Hn; [discriminate |].
  intros [= <-]. split; [reflexivity |].
  apply nth_error_None in Hn. unfold len. lia.
Qed.

Lemma index_ok {A} (l : list A) (k : nat) (a d : A) :
  index l (Z.of_nat k) = Ok a -> a = nth k l d /\ (k < List.length l)%nat.
Proof.
  intros H. destruct (Nat.lt_ge_cases k (List.length l)) as [Hlt | Hge].
  - rewrite (index_nth l d Hlt) in H. inversion H. split; [reflexivity | exact Hlt].
  - rewrite (index_out l Hge) in H. discriminate.
Qed.

(** X19.  A segment record is built exactly when its buffer decodes, to
    the end, to at least thirteen values.  Then the start is the first
    value, the end is the start plus the second value, the other fields
    are the values at their positions, [type] and [color] both hold the
    thirteenth value, and values after it are ignored.  Otherwise, that
    is when the buffer decodes to fewer than thirteen values or the
    decoder stops on a truncated encoding, construction raises
    [IndexError], and it raises nothing else. *)
Theorem Seg_init_fields :
  forall (buf : bytes),
    (forall vals,
       unpack_dds buf = (vals, None) -> (13 <= List.length vals)%nat ->
       exists s,
         Seg_init buf = Ok s /\
         Seg.startEA s = nth 0 vals 0 /\
         Seg.endEA s = nth 0 vals 0 + nth 1 vals 0 /\
         Seg.name_index s = nth 2 vals 0 /\
         Seg.sclass s = nth 3 vals 0 /\
         Seg.orgbase s = nth 4 vals 0 /\
         Seg.align s = nth 5 vals 0 /\
         Seg.comb s = nth 6 vals 0 /\
         Seg.perm s = nth 7 vals 0 /\
         Seg.bitness s = nth 8 vals 0 /\
         Seg.flags s = nth 9 vals 0 /\
         Seg.sel s = nth 10 vals 0 /\
         Seg.defsr s = nth 11 vals 0 /\
         Seg.type s = nth 12 vals 0 /\
         Seg.color s = nth 12 vals 0) /\
    (forall e,
       Seg_init buf = Raise e ->
       e = IndexError /\
       (snd (unpack_dds buf) = Some IndexError \/
        (List.length (fst (unpack_dds buf)) < 13)%nat)) /\
    (forall vals,
       unpack_dds buf = (vals, None) -> (List.length vals < 13)%nat ->
       Seg_init buf = Raise IndexError) /\
    (forall vals e,
       unpack_dds buf = (vals, Some e) -> Seg_init buf = Raise IndexError).
Proof.
  intros buf. split; [| split; [| split]].
  - intros vals Hdds Hlen. unfold Seg_init, list_of. rewrite Hdds.
    cbn [fst snd bind].
    change 0 with (Z.of_nat 0) at 1. change 1 with (Z.of_nat 1) at 1.
    change 2 with (Z.of_nat 2) at 1. change 3 with (Z.of_nat 3) at 1.
    change 4 with (Z.of_nat 4) at 1. change 5 with (Z.of_nat 5) at 1.
    change 6 with (Z.of_nat 6) at 1. change 7 with (Z.of_nat 7) at 1.
    change 8 with (Z.of_nat 8) at 1. change 9 with (Z.of_nat 9) at 1.
    change 10 with (Z.of_nat 10) at 1. change 11 with (Z.of_nat 11) at 1.
    change 12 with (Z.of_nat 12).
    rewrite !(fun k H => @index_nth _ vals k 0 H) by lia.
    cbn [bind]. eexists. split; [reflexivity |]. repeat split.
  - intros e. unfold Seg_init, list_of.
    pose proof (@unpack_dds_from_bounds buf 0 (Z.le_refl 0)) as (_ & _ & Hend).
    fold (unpack_dds buf) in Hend.
    destruct (unpack_dds buf) as [vals [x|]] eqn:Hdds; cbn [fst snd bind] in *.
    + destruct Hend as [Hend | Hend]; [discriminate |].
      intros [= <-]. split; [congruence | left; exact Hend].
    + repeat match goal with
             | |- bind (index vals ?k) _ = _ -> _ =>
                 let H := fresh "H" in
                 destruct (index vals k) eqn:H; cbn [bind];
                 [| apply index_raise in H; [| lia];
                    intros [= <-]; destruct H as [-> H];
                    split; [reflexivity | right; unfold len in H; lia] ]
             end.
      discriminate.
  - intros vals Hdds Hlen. unfold Seg_init, list_of. rewrite Hdds.
    cbn [fst snd bind].
    do 13 (destruct vals as [| ? vals]; [reflexivity |]).
    cbn [List.length] in Hlen. lia.
  - intros vals e Hdds. unfold Seg_init, list_of.
    pose proof (@unpack_dds_from_bounds buf 0 (Z.le_refl 0)) as (_ & _ & Hend).
    fold (unpack_dds buf) in Hend. rewrite Hdds in Hend |- *.
    cbn [fst snd bind] in *.
    destruct Hend as [Hend | Hend]; [discriminate |].
    injection Hend as ->. reflexivity.
Qed.

Lemma Seg_init_fields_witness :
  (exists s,
     Seg_init [x10; x05; x02; x03; x04; x05; x06; x07; x08; x09; x0a; x0b; x0c; x0d]
     = Ok s /\
     Seg.endEA s = 0x15 /\ Seg.type s = 0xC /\ Seg.color s = 0xC) /\
  Seg_init [x10; x05; x02] = Raise IndexError /\
  Seg_init [x10; x05; x80] = Raise IndexError.
Proof.
  split; [| split].
  2: exact (proj1 (proj2 (proj2 (Seg_init_fields [x10; x05; x02])))
              [0x10; 5; 2] eq_refl ltac:(simpl; lia)).
  2: exact (proj2 (proj2 (proj2 (Seg_init_fields [x10; x05; x80])))
              [0x10; 5] IndexError eq_refl).
  destruct (proj1 (Seg_init_fields
                     [x10; x05; x02; x03; x04; x05; x06; x07; x08; x09; x0a;
                      x0b; x0c; x0d])
                  [0x10; 5; 2; 3; 4; 5; 6; 7; 8; 9; 10; 11; 12; 13]
                  eq_refl ltac:(simpl; lia))
    as (s & Hs & _ & Hend & _ & _ & _ & _ & _ & _ & _ & _ & _ & _ & Htype & Hcolor).
  exists s. repeat split; assumption.
Defined.

(** ** Field tables *)

Lemma dict_get_set {V} (d : dict V) (k k' : Z) (v : V) :
  dict_get (dict_set d k v) k' = if k =? k' then Some v else dict_get d k'.
Proof.
  induction d as [|[k0 v0] d IH]; cbn [dict_set dict_get].
  - reflexivity.
  - destruct (k0 =? k) eqn:E0; cbn [dict_get].
    + apply Z.eqb_eq in E0. subst k0. destruct (k =? k'); reflexivity.
    + destruct (k0 =? k') eqn:E1.
      * apply Z.eqb_eq in E1. subst k0. rewrite (Z.eqb_sym k k'), E0. reflexivity.
      * exact IH.
Qed.

Lemma nfilter_kept (db : IDB) (m : IndexType) (k : Z) :
  wordsize db = 4 \/ wordsize db = 8 ->
  nfilter db m k = Ok (kept db m k).
Proof.
  intros Hw. unfold kept.
  assert (Hn : exists n, _is_node db k = Ok n)
    by (unfold _is_node; destruct Hw as [-> | ->]; eexists; reflexivity).
  destruct Hn as [n Hn].
  destruct m; cbn [nfilter]; try reflexivity.
  - unfold _is_number. rewrite Hn. destruct (_is_address db k); reflexivity.
  - rewrite Hn. reflexivity.
Qed.

(** The loop of [__getattr__], when the filter and the cast always
    return: the mapping it builds holds, for each index, the cast of the
    last kept entry with this index, and otherwise what it held before. *)
Lemma getattr_loop_total {V} (db : IDB) (m : IndexType)
  (cast : option (bytes -> result V)) (entries : list SupEntry) :
  wordsize db = 4 \/ wordsize db = 8 ->
  (forall sup, In sup entries -> kept db m (sup_index sup) = true ->
               exists x, apply_cast cast (sup_value sup) = Ok x) ->
  forall ret0,
  exists ret,
    getattr_loop (nfilter db m) cast entries None ret0 = Ok ret /\
    forall k,
      match last_kept (kept db m) entries k with
      | Some v => exists x, apply_cast cast v = Ok x /\ dict_get ret k = Some x
      | None => dict_get ret k = dict_get ret0 k
      end.
Proof.
  intros Hw. induction entries as [|sup rest IH]; intros Hcast ret0.
  - exists ret0. split; [reflexivity |]. intros k. reflexivity.
  - cbn [getattr_loop]. rewrite (nfilter_kept db m (sup_index sup) Hw).
    cbn [bind].
    assert (Hrest : forall s, In s rest -> kept db m (sup_index s) = true ->
                              exists x, apply_cast cast (sup_value s) = Ok x)
      by (intros s Hs; apply Hcast; right; exact Hs).
    destruct (kept db m (sup_index sup)) eqn:Hk; cbn [negb].
    + destruct (Hcast sup (or_introl eq_refl) Hk) as [x Hx].
      rewrite Hx. cbn [bind].
      destruct (IH Hrest (dict_set ret0 (sup_index sup) x)) as (ret & Hret & Hget).
      exists ret. split; [exact Hret |]. intros k. specialize (Hget k).
      cbn [last_kept]. destruct (last_kept (kept db m) rest k) as [v|]; [exact Hget |].
      rewrite Hk. cbn [andb]. rewrite dict_get_set in Hget.
      destruct (sup_index sup =? k); [exists x; split; assumption | exact Hget].
    + destruct (IH Hrest ret0) as (ret & Hret & Hget).
      exists ret. split; [exact Hret |]. intros k. specialize (Hget k).
      cbn [last_kept]. destruct (last_kept (kept db m) rest k) as [v|]; [exact Hget |].
      rewrite Hk. exact Hget.
Qed.

Lemma last_kept_some (keep : Z -> bool) (entries : list SupEntry) (k : Z) :
  last_kept keep entries k <> None <->
  exists sup, In sup entries /\ sup_index sup = k /\ keep k = true.
Proof.
  induction entries as [|sup rest IH]; cbn [last_kept].
  - split; [congruence | intros (s & [] & _)].
  - destruct (last_kept keep rest k) as [v|] eqn:Hl.
    + split; [| discriminate]. intros _.
      destruct (proj1 IH ltac:(discriminate)) as (s & Hs & Hi & Hk).
      exists s. repeat split; [right |..]; assumption.
    + destruct (keep (sup_index sup) && (sup_index sup =? k)) eqn:Hb.
      * split; [| discriminate]. intros _.
        apply andb_true_iff in Hb. destruct Hb as [Hk Hi].
        apply Z.eqb_eq in Hi. exists sup. subst k.
        repeat split; [left; reflexivity | exact Hk].
      * split; [congruence |]. intros (s & [<- | Hs] & Hi & Hk).
        -- subst k. rewrite Hk, Z.eqb_refl in Hb. discriminate.
        -- exfalso. apply (proj2 IH); [| reflexivity].
           exists s. repeat split; assumption.
Qed.

Lemma getattr_mapping_of (V : Type) (self : _Analysis V) (key : String.string)
  (field : Field.t V) (m : IndexType) (entries : list SupEntry) :
  wordsize (idb self) = 4 \/ wordsize (idb self) = 8 ->
  _fields_by_name (fields self) key = Some field ->
  Field.index field = Marker m ->
  nn_supentries (netnode self) (Field.tag field) = (entries, None) ->
  (forall sup, In sup entries -> kept (idb self) m (sup_index sup) = true ->
               exists x, apply_cast (Field.cast field) (sup_value sup) = Ok x) ->
  exists ret,
    __getattr__ self key = Ok (Mapping ret) /\
    forall k,
      match last_kept (kept (idb self) m) entries k with
      | Some v => exists x, apply_cast (Field.cast field) v = Ok x /\
                            dict_get ret k = Some x
      | None => dict_get ret k = None
      end.
Proof.
  intros Hw Hf Hm He Hcast. unfold __getattr__. rewrite Hf, Hm, He.
  destruct (getattr_loop_total (idb self) m (Field.cast field) entries Hw Hcast [])
    as (ret & Hret & Hget).
  exists ret. rewrite Hret. split; [reflexivity | exact Hget].
Qed.

(** X20.  Resolving a field whose index is a marker, on a database with
    4- or 8-byte words and a node whose enumeration ends normally and whose
    kept values the cast accepts, returns a mapping whose keys are exactly
    the indices of the entries that the marker's filter keeps; the value
    under a key is the cast (or the raw bytes, without a cast) of the last
    kept entry with that index.  A node without entries gives the empty
    mapping. *)
Theorem getattr_mapping :
  forall (V : Type) (self : _Analysis V) (key : String.string)
         (field : Field.t V) (m : IndexType) (entries : list SupEntry),
    wordsize (idb self) = 4 \/ wordsize (idb self) = 8 ->
    _fields_by_name (fields self) key = Some field ->
    Field.index field = Marker m ->
    nn_supentries (netnode self) (Field.tag field) = (entries, None) ->
    (forall sup, In sup entries -> kept (idb self) m (sup_index sup) = true ->
                 exists x, apply_cast (Field.cast field) (sup_value sup) = Ok x) ->
    exists ret,
      __getattr__ self key = Ok (Mapping ret) /\
      (forall k,
         has_key ret k <->
         exists sup, In sup entries /\ sup_index sup = k /\
                     nfilter (idb self) m k = Ok true) /\
      (forall k v,
         last_kept (kept (idb self) m) entries k = Some v ->
         exists x, apply_cast (Field.cast field) v = Ok x /\
                   dict_get ret k = Some x) /\
      (entries = [] -> ret = []).
Proof.
  intros V self key field m entries Hw Hf Hm He Hcast.
  destruct (getattr_mapping_of self key Hw Hf Hm He Hcast) as (ret & Hret & Hget).
  exists ret. split; [exact Hret |]. split; [| split].
  - intros k. specialize (Hget k). unfold has_key.
    transitivity (last_kept (kept (idb self) m) entries k <> None).
    + destruct (last_kept (kept (idb self) m) entries k) as [v|].
      * destruct Hget as (x & _ & Hx). rewrite Hx. split; discriminate.
      * rewrite Hget. split; intros H; exfalso; apply H; reflexivity.
    + rewrite last_kept_some. split; intros (sup & Hin & Hi & Hk);
        exists sup; repeat split; try assumption.
      * rewrite (nfilter_kept _ m k Hw), Hk. reflexivity.
      * rewrite (nfilter_kept _ m k Hw) in Hk. congruence.
  - intros k v Hl. specialize (Hget k). rewrite Hl in Hget. exact Hget.
  - intros ->. unfold __getattr__ in Hret. rewrite Hf, Hm, He in Hret.
    cbn in Hret. congruence.
Qed.

Lemma getattr_mapping_witness :
  exists ret,
    __getattr__ sample_analysis "addresses"%string = Ok (Mapping ret) /\
    dict_get ret 0x401000 = Some (Raw [x41]).
Proof.
  destruct (@getattr_mapping unit sample_analysis "addresses"%string
              (Field.mk "addresses"%string "S"%char (Marker ADDRESSES) None)
              ADDRESSES
              [mkSupEntry 0x401000 [x41]; mkSupEntry 0xFF000010 [x42];
               mkSupEntry 1 [x43]]
              (or_introl eq_refl) eq_refl eq_refl eq_refl
              (fun sup _ _ => ex_intro _ (Raw (sup_value sup)) eq_refl))
    as (ret & Hret & _ & Hval & _).
  exists ret. split; [exact Hret |].
  destruct (Hval 0x401000 [x41] eq_refl) as (x & Hx & Hd).
  cbn in Hx. congruence.
Defined.

Lemma kept_classes (db : IDB) (k : Z) :
  wordsize db = 4 \/ wordsize db = 8 ->
  kept db ALL k = true /\
  kept db NUMBERS k = negb (kept db ADDRESSES k) && negb (kept db NODES k).
Proof.
  intros Hw. split; [reflexivity |].
  unfold kept. cbn [nfilter]. unfold _is_number, _is_node.
  destruct Hw as [-> | ->]; cbn [Z.eqb Pos.eqb bind];
    destruct (_is_address db k); reflexivity.
Qed.

(** X21.  On a database with 4- or 8-byte words, for four fields over the
    same tag with the markers ALL, ADDRESSES, NUMBERS and NODES, the keys
    of the ALL mapping are those of the three other mappings taken
    together, and a key of the NUMBERS mapping is a key of neither of the
    two others.  So the ordinals and the addresses of a table like
    [EntryPoints] never share an index, and what its `all` field has
    beyond them are the indices that look like node ids. *)
Theorem getattr_classes_partition :
  forall (V : Type) (self : _Analysis V)
         (key_all key_addr key_num key_node : String.string)
         (f_all f_addr f_num f_node : Field.t V) (tag : ascii)
         (entries : list SupEntry),
    wordsize (idb self) = 4 \/ wordsize (idb self) = 8 ->
    _fields_by_name (fields self) key_all = Some f_all ->
    _fields_by_name (fields self) key_addr = Some f_addr ->
    _fields_by_name (fields self) key_num = Some f_num ->
    _fields_by_name (fields self) key_node = Some f_node ->
    Field.index f_all = Marker ALL -> Field.tag f_all = tag ->
    Field.index f_addr = Marker ADDRESSES -> Field.tag f_addr = tag ->
    Field.index f_num = Marker NUMBERS -> Field.tag f_num = tag ->
    Field.index f_node = Marker NODES -> Field.tag f_node = tag ->
    nn_supentries (netnode self) tag = (entries, None) ->
    (forall f sup, In f [f_all; f_addr; f_num; f_node] -> In sup entries ->
                   exists x, apply_cast (Field.cast f) (sup_value sup) = Ok x) ->
    exists d_all d_addr d_num d_node,
      __getattr__ self key_all = Ok (Mapping d_all) /\
      __getattr__ self key_addr = Ok (Mapping d_addr) /\
      __getattr__ self key_num = Ok (Mapping d_num) /\
      __getattr__ self key_node = Ok (Mapping d_node) /\
      forall k,
        (has_key d_all k <->
         has_key d_addr k \/ has_key d_num k \/ has_key d_node k) /\
        (has_key d_num k -> ~ has_key d_addr k /\ ~ has_key d_node k).
Proof.
  intros V self key_all key_addr key_num key_node f_all f_addr f_num f_node
         tag entries Hw Ha Hb Hc Hd Ia Ta Ib Tb Ic Tc Id Td He Hcast.
  subst tag.
  assert (Hkeys : forall key f m,
             _fields_by_name (fields self) key = Some f ->
             Field.index f = Marker m -> Field.tag f = Field.tag f_all ->
             In f [f_all; f_addr; f_num; f_node] ->
             exists d, __getattr__ self key = Ok (Mapping d) /\
                       forall k, has_key d k <->
                                 last_kept (kept (idb self) m) entries k <> None).
  { intros key f m Hf Hm Ht Hin. rewrite <- Ht in He.
    destruct (getattr_mapping_of self key Hw Hf Hm He
                (fun sup Hs _ => Hcast f sup Hin Hs)) as (d & Hd' & Hget).
    exists d. split; [exact Hd' |]. intros k. specialize (Hget k). unfold has_key.
    destruct (last_kept (kept (idb self) m) entries k) as [v|].
    - destruct Hget as (x & _ & Hx). rewrite Hx. split; discriminate.
    - rewrite Hget. split; intros H; exfalso; apply H; reflexivity. }
  destruct (Hkeys key_all f_all ALL Ha Ia eq_refl ltac:(simpl; auto))
    as (d_all & R1 & K1).
  destruct (Hkeys key_addr f_addr ADDRESSES Hb Ib Tb ltac:(simpl; auto))
    as (d_addr & R2 & K2).
  destruct (Hkeys key_num f_num NUMBERS Hc Ic Tc ltac:(simpl; auto))
    as (d_num & R3 & K3).
  destruct (Hkeys key_node f_node NODES Hd Id Td ltac:(simpl; auto))
    as (d_node & R4 & K4).
  exists d_all, d_addr, d_num, d_node. repeat (split; [assumption |]).
  intros k. rewrite K1, K2, K3, K4, !last_kept_some.
  destruct (kept_classes (idb self) k Hw) as [Hall Hnum].
  rewrite Hall, Hnum.
  assert (Hex : forall b : bool,
             (exists sup, In sup entries /\ sup_index sup = k /\ b = true) <->
             (exists sup, In sup entries /\ sup_index sup = k) /\ b = true).
  { intros b. split.
    - intros (sup & Hin & Hi & Hbt). split; [exists sup; split; assumption | exact Hbt].
    - intros [(sup & Hin & Hi) Hbt]. exists sup. repeat split; assumption. }
  rewrite !Hex.
  destruct (kept (idb self) ADDRESSES k), (kept (idb self) NODES k);
    cbn [negb andb]; intuition congruence.
Qed.

Lemma getattr_classes_partition_witness :
  exists d_all d_addr d_num d_node,
    __getattr__ sample_analysis "all"%string = Ok (Mapping d_all) /\
    __getattr__ sample_analysis "addresses"%string = Ok (Mapping d_addr) /\
    __getattr__ sample_analysis "ordinals"%string = Ok (Mapping d_num) /\
    __getattr__ sample_analysis "nodes"%string = Ok (Mapping d_node) /\
    (has_key d_num 1 -> ~ has_key d_addr 1 /\ ~ has_key d_node 1).
Proof.
  destruct (@getattr_classes_partition unit sample_analysis
              "all"%string "addresses"%string "ordinals"%string "nodes"%string
              (Field.mk "all"%string "S"%char (Marker ALL) None)
              (Field.mk "addresses"%string "S"%char (Marker ADDRESSES) None)
              (Field.mk "ordinals"%string "S"%char (Marker NUMBERS) None)
              (Field.mk "nodes"%string "S"%char (Marker NODES) None)
              "S"%char
              [mkSupEntry 0x401000 [x41]; mkSupEntry 0xFF000010 [x42];
               mkSupEntry 1 [x43]]
              (or_introl eq_refl) eq_refl eq_refl eq_refl eq_refl
              eq_refl eq_refl eq_refl eq_refl eq_refl eq_refl eq_refl eq_refl
              eq_refl
              ltac:(intros f sup Hf _; simpl in Hf;
                    destruct Hf as [<- | [<- | [<- | [<- | []]]]];
                    eexists; reflexivity))
    as (d_all & d_addr & d_num & d_node & R1 & R2 & R3 & R4 & Hk).
  exists d_all, d_addr, d_num, d_node.
  repeat (split; [assumption |]). exact (proj2 (Hk 1)).
Defined.

Lemma fields_by_name_none {V} (fields : list (Field.t V)) (key : String.string) :
  ~ In key (map (@Field.name V) fields) -> _fields_by_name fields key = None.
Proof.
  induction fields as [|f rest IH]; intros Hn; [reflexivity |].
  cbn [_fields_by_name]. rewrite IH by (intros H; apply Hn; right; exact H).
  destruct (String.eqb (Field.name f) key) eqn:E; [| reflexivity].
  apply String.eqb_eq in E. exfalso. apply Hn. left. exact E.
Qed.

Lemma fields_by_name_last {V} (pre post : list (Field.t V)) (f : Field.t V) :
  ~ In (Field.name f) (map (@Field.name V) post) ->
  _fields_by_name (pre ++ f :: post) (Field.name f) = Some f.
Proof.
  intros Hn. induction pre as [|g pre IH].
  - cbn [app _fields_by_name]. rewrite (fields_by_name_none post _ Hn).
    rewrite String.eqb_refl. reflexivity.
  - cbn [app _fields_by_name]. rewrite IH. reflexivity.
Qed.

(** X22.  The table of an analyzer is looked up by name: for the last
    field of a given name, [get_field_tag] and [get_field_index] return
    its tag and its index (an earlier field of the same name is shadowed),
    and for a name that no field has both raise [KeyError]. *)
Theorem field_introspection :
  forall (V : Type) (self : _Analysis V),
    (forall pre f post,
       fields self = pre ++ f :: post ->
       ~ In (Field.name f) (map (@Field.name V) post) ->
       get_field_tag self (Field.name f) = Ok (Field.tag f) /\
       get_field_index self (Field.name f) = Ok (Field.index f)) /\
    (forall name,
       ~ In name (map (@Field.name V) (fields self)) ->
       get_field_tag self name = Raise KeyError /\
       get_field_index self name = Raise KeyError).
Proof.
  intros V self. split.
  - intros pre f post Hfields Hn. unfold get_field_tag, get_field_index.
    rewrite Hfields, (fields_by_name_last pre post f Hn). split; reflexivity.
  - intros name Hn. unfold get_field_tag, get_field_index.
    rewrite (fields_by_name_none _ _ Hn). split; reflexivity.
Qed.

Lemma field_introspection_witness :
  get_field_tag sample_analysis "addresses"%string = Ok "S"%char /\
  get_field_index sample_analysis "addresses"%string = Ok (Marker ADDRESSES).
Proof.
  apply (proj1 (@field_introspection unit sample_analysis)
               [Field.mk "ordinals"%string "S"%char (Marker NUMBERS) None]
               (Field.mk "addresses"%string "S"%char (Marker ADDRESSES) None)
               [Field.mk "all"%string "S"%char (Marker ALL) None;
                Field.mk "nodes"%string "S"%char (Marker NODES) None]
               eq_refl).
  simpl. intros [H | [H | []]]; discriminate H.
Defined.

(** ** Text *)

Lemma unhexlify_pair (b : byte) :
  let hi := digit lower_hex (Z.shiftr (byte_val b) 4) in
  let lo := digit lower_hex (Z.land (byte_val b) 0xF) in
  In hi lower_hex /\ In lo lower_hex /\
  forall rest, unhexlify (hi :: lo :: rest)
               = match unhexlify rest with
                 | Some bs => Some (b :: bs)
                 | None => None
                 end.
Proof.
  destruct b; cbv zeta; (split; [| split]);
    try (vm_compute; tauto); intros rest; cbn [unhexlify];
    destruct (unhexlify rest); reflexivity.
Qed.

(** X23.  [as_md5] writes every byte as two lowercase hexadecimal digits:
    the text is twice as long as the buffer (32 characters for the 16
    bytes of a digest), holds nothing but the characters 0-9 and a-f, and
    reading the digits back gives the buffer, so that different buffers
    give different texts. *)
Theorem as_md5_hex :
  forall (buf : bytes),
    List.length (as_md5 buf) = (2 * List.length buf)%nat /\
    Forall (fun c => In c lower_hex) (as_md5 buf) /\
    unhexlify (as_md5 buf) = Some buf /\
    (forall buf', as_md5 buf' = as_md5 buf -> buf' = buf).
Proof.
  intros buf.
  assert (Hround : forall b, unhexlify (as_md5 b) = Some b).
  { intros b. induction b as [|x b IH]; [reflexivity |].
    unfold as_md5, hexlify in *. cbn [flat_map app].
    rewrite (proj2 (proj2 (unhexlify_pair x))), IH. reflexivity. }
  split; [| split; [| split]].
  - unfold as_md5, hexlify. induction buf as [|x buf IH]; [reflexivity |].
    cbn [flat_map app List.length]. rewrite IH. lia.
  - unfold as_md5, hexlify. induction buf as [|x buf IH]; [constructor |].
    cbn [flat_map app]. destruct (unhexlify_pair x) as (Hhi & Hlo & _).
    constructor; [exact Hhi |]. constructor; [exact Hlo | exact IH].
  - apply Hround.
  - intros buf' E. pose proof (Hround buf') as H'. rewrite E, Hround in H'.
    congruence.
Qed.

Lemma as_md5_hex_witness :
  List.length (as_md5 [xd4; x1d; x8c; xd9; x8f; x00; xb2; x04;
                       xe9; x80; x09; x98; xec; xf8; x42; x7e]) = 32%nat /\
  unhexlify (as_md5 [xd4; x1d]) = Some [xd4; x1d].
Proof.
  split.
  - apply (proj1 (as_md5_hex [xd4; x1d; x8c; xd9; x8f; x00; xb2; x04;
                              xe9; x80; x09; x98; xec; xf8; x42; x7e])).
  - apply (proj1 (proj2 (proj2 (as_md5_hex [xd4; x1d])))).
Defined.

Lemma digit_value_upper (n : Z) :
  0 <= n < 16 -> digit_value (digit upper_hex n) = Some n.
Proof.
  intros Hn. rewrite <- (Z2Nat.id n) by lia.
  assert (Hk : (Z.to_nat n < 16)%nat) by lia.
  generalize dependent (Z.to_nat n). clear. intros k Hk.
  do 16 (destruct k as [|k]; [reflexivity |]). lia.
Qed.

Lemma parse_hex_snoc (s : str) (c : ascii) :
  parse_hex (s ++ [c])
  = match parse_hex s, digit_value c with
    | Some a, Some d => Some (16 * a + d)
    | _, _ => None
    end.
Proof. unfold parse_hex. rewrite fold_left_app. reflexivity. Qed.

Lemma parse_hex_digits (n : Z) : 0 <= n -> parse_hex (hex_digits n) = Some n.
Proof.
  funelim (hex_digits n); intros Hn.
  - clear Heqcall. pose proof (proj1 (Z.ltb_lt _ _) e) as Hlt.
    unfold parse_hex. cbn [fold_left].
    rewrite digit_value_upper by lia. f_equal; lia.
  - clear Heqcall. pose proof (proj1 (Z.ltb_ge _ _) Hge) as Hge'.
    rewrite parse_hex_snoc, H by (apply Z.div_pos; lia).
    rewrite digit_value_upper by (apply Z.mod_pos_bound; lia).
    f_equal. symmetry. apply Z.div_mod. lia.
Qed.

(** The digits of ['%X'] are taken from [0-9A-F]. *)
Lemma digit_upper_in (n : Z) : In (digit upper_hex n) upper_hex.
Proof.
  unfold digit. generalize (Z.to_nat n). intros k.
  do 16 (destruct k as [|k]; [cbn; tauto |]).
  destruct k; cbn; tauto.
Qed.

Lemma digit_upper_nonzero (n : Z) :
  0 < n < 16 -> digit upper_hex n <> "0"%char.
Proof.
  intros Hn. unfold digit.
  assert (Hk : (0 < Z.to_nat n < 16)%nat) by lia.
  generalize dependent (Z.to_nat n). clear. intros k Hk.
  destruct k as [|k]; [lia |].
  do 15 (destruct k as [|k]; [discriminate |]). lia.
Qed.

Lemma hex_digits_upper (n : Z) :
  Forall (fun c => In c upper_hex) (hex_digits n).
Proof.
  funelim (hex_digits n); clear Heqcall.
  - constructor; [apply digit_upper_in | constructor].
  - apply Forall_app. split; [exact H |].
    constructor; [apply digit_upper_in | constructor].
Qed.

Lemma hex_digits_zero : hex_digits 0 = ["0"%char].
Proof. simp hex_digits. reflexivity. Qed.

(** No padding: the first digit of a positive number is not [0]. *)
Lemma hex_digits_head (n : Z) :
  0 < n -> hd "0"%char (hex_digits n) <> "0"%char.
Proof.
  funelim (hex_digits n); clear Heqcall; intros Hn.
  - pose proof (proj1 (Z.ltb_lt _ _) e) as Hlt.
    cbn [hd]. apply digit_upper_nonzero. lia.
  - pose proof (proj1 (Z.ltb_ge _ _) Hge) as Hge'.
    assert (Hq : 0 < n / 16) by (apply Z.div_str_pos; lia).
    specialize (H Hq).
    destruct (hex_digits (n / 16)) as [| c rest]; [| exact H].
    exfalso. apply H. reflexivity.
Qed.

(** X24.  For a function without a name (the lookup raises [KeyError]),
    [get_name] returns [sub_] followed by the address written in base 16:
    the digits are taken from [0-9A-F] (uppercase), there is no padding
    (address 0 is written [0], and the first digit of any other address
    is not [0]), and reading the digits back gives the address, so two
    unnamed functions at different addresses never get the same name.
    A name that exists is returned as it is. *)
Theorem Function_get_name_fallback :
  forall (a : Z),
    0 <= a ->
    (exists digits,
       Function_get_name (Raise KeyError) a
       = Ok (["s"; "u"; "b"; "_"]%char ++ digits) /\
       parse_hex digits = Some a /\
       Forall (fun c => In c upper_hex) digits /\
       (a = 0 -> digits = ["0"%char]) /\
       (0 < a -> hd "0"%char digits <> "0"%char)) /\
    (forall b, 0 <= b ->
       Function_get_name (Raise KeyError) b = Function_get_name (Raise KeyError) a ->
       b = a) /\
    (forall s, Function_get_name (Ok s) a = Ok s).
Proof.
  intros a Ha.
  assert (Hfmt : forall n, 0 <= n -> format_X n = hex_digits n).
  { intros n Hn. unfold format_X.
    destruct (n <? 0) eqn:E; [apply Z.ltb_lt in E; lia | reflexivity]. }
  split; [| split].
  - exists (hex_digits a). cbn [Function_get_name]. rewrite (Hfmt a Ha).
    split; [reflexivity |].
    split; [apply parse_hex_digits; exact Ha |].
    split; [apply hex_digits_upper |].
    split; [intros ->; apply hex_digits_zero | apply hex_digits_head].
  - intros b Hb. cbn [Function_get_name]. rewrite (Hfmt a Ha), (Hfmt b Hb).
    intros [= E]. pose proof (parse_hex_digits Hb) as Hpb.
    rewrite E, (parse_hex_digits Ha) in Hpb. congruence.
  - intros s. reflexivity.
Qed.

Lemma Function_get_name_fallback_witness :
  exists digits,
    Function_get_name (Raise KeyError) 0x401A2F
    = Ok (["s"; "u"; "b"; "_"]%char ++ digits) /\
    parse_hex digits = Some 0x401A2F /\
    Forall (fun c => In c upper_hex) digits /\
    (0x401A2F = 0 -> digits = ["0"%char]) /\
    (0 < 0x401A2F -> hd "0"%char digits <> "0"%char).
Proof.
  apply (proj1 (@Function_get_name_fallback 0x401A2F ltac:(lia))).
Defined.

Example Function_get_name_example :
  Function_get_name (Raise KeyError) 0x401A2F
  = Ok ["s"; "u"; "b"; "_"; "4"; "0"; "1"; "A"; "2"; "F"]%char.
Proof. reflexivity. Qed.

Lemma partition_spec (sep : ascii) (s : str) :
  let '(head, mid, tail) := partition sep s in
  s = head ++ mid ++ tail /\ ~ In sep head /\
  ((In sep s /\ mid = [sep]) \/ (~ In sep s /\ mid = [] /\ tail = [])).
Proof.
  induction s as [|c s IH]; cbn [partition].
  - split; [reflexivity |]. split; [intros [] |].
    right. split; [intros [] | split; reflexivity].
  - destruct (Ascii.eqb c sep) eqn:E.
    + apply Ascii.eqb_eq in E. subst c.
      split; [reflexivity |]. split; [intros [] |].
      left. split; [left; reflexivity | reflexivity].
    + apply Ascii.eqb_neq in E.
      destruct (partition sep s) as [[head mid] tail].
      destruct IH as (Hs & Hh & Hm).
      split; [cbn [app]; f_equal; exact Hs |].
      split; [intros [H | H]; [congruence | contradiction] |].
      destruct Hm as [[Hin Hmid] | (Hnin & Hmid & Htail)].
      * left. split; [right; exact Hin | exact Hmid].
      * right. repeat split; try assumption.
        intros [H | H]; [congruence | contradiction].
Qed.

(** X25.  The name of a structure member is what follows the first dot of
    the name of its node: the node name is some dot-free text, a dot and
    the member name, which may itself contain dots.  If the node name has
    no dot the member name is empty, and a failing lookup of the node name
    fails the same way. *)
Theorem StructMember_get_name_after_dot :
  forall (s : str),
    (In "."%char s ->
     exists head member,
       StructMember_get_name (Ok s) = Ok member /\
       s = head ++ "."%char :: member /\ ~ In "."%char head) /\
    (~ In "."%char s -> StructMember_get_name (Ok s) = Ok []) /\
    (forall e, StructMember_get_name (Raise e) = Raise e).
Proof.
  intros s. pose proof (partition_spec "."%char s) as H.
  unfold StructMember_get_name. cbn [bind].
  destruct (partition "."%char s) as [[head mid] tail]. cbn [snd].
  destruct H as (Hs & Hh & Hm). split; [| split].
  - intros Hin. destruct Hm as [[_ ->] | (Hnin & _)]; [| contradiction].
    exists head, tail. repeat split; assumption.
  - intros Hnin. destruct Hm as [[Hin _] | (_ & _ & ->)]; [contradiction |].
    reflexivity.
  - intros e. reflexivity.
Qed.

Lemma StructMember_get_name_after_dot_witness :
  exists head member,
    StructMember_get_name (Ok ["S"; "."; "a"; "."; "b"]%char) = Ok member /\
    ["S"; "."; "a"; "."; "b"]%char = head ++ "."%char :: member /\
    ~ In "."%char head.
Proof.
  apply (proj1 (StructMember_get_name_after_dot ["S"; "."; "a"; "."; "b"]%char)).
  right. left. reflexivity.
Defined.
